(** * kt_bbg: a shallow embedding of the Bloomberg wrapper

    The development follows [kt_bbg.py].  Its definitions come in layers:

    - [Py]: the fragment of the Python run time that the wrapper relies
      on (exceptions, [str] methods, [int()], binary64 arithmetic, the
      regular expression of [split_letters_numbers], [functools.lru_cache]);
    - [Pandas]: tables, as far as the wrapper reads and writes them;
    - the terminal [self.dm] and the state of a [BBG] object: what the
      terminal would answer, the requests sent to it, and one memoisation
      table per decorated method;
    - the two module-level helpers [split_letters_numbers] and
      [insert_year_into_ticker], and the methods of the class [BBG] as
      state transformers that return or raise.

    What the wrapper calls in [datetime] and [scipy] is a parameter of the
    methods that call it.  The properties follow the definitions.

    Strings are lists of code points below 256 ([ascii]); the character
    classes ([isdigit], [isspace], [lower], the regular expression's [\d])
    are Python's on that range.  Python is the version the package names,
    3.7: [int()] reads literals of any length. *)

From Stdlib Require Import ZArith List Ascii Bool Lia Arith.
From Stdlib Require String.
From Stdlib Require Import Floats.SpecFloat.
From Equations Require Import Equations.
Import ListNotations.
Import String.StringSyntax.

Open Scope string_scope.
Open Scope list_scope.

Set Implicit Arguments.
Unset Strict Implicit.

(* ===================================================================== *)
(** * The Python fragment *)
(* ===================================================================== *)

Module Py.

(** ** Strings *)

Definition str := list ascii.

(** String literals are written as Rocq strings and read as [str]. *)
Coercion String.list_ascii_of_string : String.string >-> list.

Definition chr (n : nat) : ascii := ascii_of_nat n.
Definition ord (c : ascii) : nat := nat_of_ascii c.

Definition between (lo hi : nat) (c : ascii) : bool :=
  (lo <=? ord c)%nat && (ord c <=? hi)%nat.

(** The empty string, [''] in the source. *)
Definition empty : str := [].

Definition str_eqb (a b : str) : bool :=
  if list_eq_dec ascii_dec a b then true else false.

(** [c in '0123456789']: the class [\d] of [re] and the digits [int()]
    reads. *)
Definition is_decimal (c : ascii) : bool := between 48 57 c.

(** [str.isdigit] also accepts the superscripts U+00B2, U+00B3, U+00B9. *)
Definition isdigit_char (c : ascii) : bool :=
  is_decimal c || (ord c =? 178)%nat || (ord c =? 179)%nat || (ord c =? 185)%nat.

Definition isdigit (s : str) : bool :=
  match s with
  | [] => false
  | _ => forallb isdigit_char s
  end.

(** [str.isspace] on one character: TAB..CR, FS..US, SPACE, NEL, NBSP. *)
Definition isspace_char (c : ascii) : bool :=
  between 9 13 c || between 28 32 c || (ord c =? 133)%nat || (ord c =? 160)%nat.

(** [str.lower]: A-Z and the Latin-1 capitals U+00C0..U+00DE (U+00D7 is the
    multiplication sign) move up by 32. *)
Definition lower_char (c : ascii) : ascii :=
  if between 65 90 c || (between 192 222 c && negb (ord c =? 215)%nat)
  then chr (ord c + 32) else c.

Definition lower (s : str) : str := map lower_char s.

(** [str.split()] with no argument: the maximal runs of non-space
    characters.  [cur] is the run being read, in reverse. *)
Fixpoint split_ws (cur : str) (s : str) : list str :=
  match s with
  | [] => match cur with [] => [] | _ => [rev cur] end
  | c :: s' =>
      if isspace_char c
      then match cur with
           | [] => split_ws [] s'
           | _ => rev cur :: split_ws [] s'
           end
      else split_ws (c :: cur) s'
  end.

Definition split (s : str) : list str := split_ws [] s.

(** [''.join(parts)]. *)
Definition join (parts : list str) : str := concat parts.

Fixpoint startswith (p s : str) : bool :=
  match p, s with
  | [], _ => true
  | a :: p', b :: s' => if ascii_dec a b then startswith p' s' else false
  | _ :: _, [] => false
  end.

(** [s.replace(old, new)] for a non-empty [old]: the occurrences of [old]
    are found from left to right without overlap.  [skip] counts the
    characters of the occurrence just replaced that are still to be
    dropped. *)
Fixpoint replace_from (old new : str) (skip : nat) (s : str) : str :=
  match s with
  | [] => []
  | c :: s' =>
      match skip with
      | S k => replace_from old new k s'
      | O =>
          if startswith old s
          then new ++ replace_from old new (length old - 1) s'
          else c :: replace_from old new 0 s'
      end
  end.

Definition replace (old new s : str) : str := replace_from old new 0 s.

(** ** Exceptions and results *)

(** An exception is its class and a message.  Where the source raises the
    exception itself the message is the source's; where the interpreter
    raises it (unpacking, [int()], indexing, an unbound local) the message
    names the operation that failed. *)
Inductive exn : Type :=
| ValueError (msg : str)
| TypeError (msg : str)
| IndexError (msg : str)
| KeyError (key : str)
| AttributeError (msg : str)
| OverflowError (msg : str)
| UnboundLocalError (name : str)
| IOError (msg : str)
| LibraryError (lib : str) (msg : str).

Inductive result (A : Type) : Type :=
| Return (a : A)
| Raise (e : exn).
Arguments Return {A} a.
Arguments Raise {A} e.

Definition bind {A B} (r : result A) (k : A -> result B) : result B :=
  match r with
  | Return a => k a
  | Raise e => Raise e
  end.

Notation "'let*' x ':=' r 'in' k" := (bind r (fun x => k))
  (at level 10, x pattern, r at level 100, k at level 200).

(** [[f(x) for x in xs]]: stops at the first exception. *)
Fixpoint traverse {A B} (f : A -> result B) (xs : list A) : result (list B) :=
  match xs with
  | [] => Return []
  | x :: xs' =>
      let* y := f x in
      let* ys := traverse f xs' in
      Return (y :: ys)
  end.

(** ** Integers: [int(s)] *)

Definition digit_value (c : ascii) : Z := Z.of_nat (ord c - 48).

(** The value of a run of decimal digits, most significant first. *)
Definition digits_value (ds : str) : Z :=
  fold_left (fun acc c => 10 * acc + digit_value c)%Z ds 0%Z.

(** The body of an integer literal: digits, single underscores allowed
    between two digits.  [prev] tells whether the previous character was a
    digit. *)
Fixpoint int_body (prev : bool) (acc : Z) (s : str) : option Z :=
  match s with
  | [] => if prev then Some acc else None
  | c :: s' =>
      if is_decimal c then int_body true (10 * acc + digit_value c)%Z s'
      else if (ord c =? 95)%nat then
        if prev then
          match s' with
          | d :: _ => if is_decimal d then int_body false acc s' else None
          | [] => None
          end
        else None
      else None
  end.

Fixpoint lstrip (s : str) : str :=
  match s with
  | c :: s' => if isspace_char c then lstrip s' else s
  | [] => []
  end.

Definition strip (s : str) : str := rev (lstrip (rev (lstrip s))).

(** [int(s)] in base 10: surrounding white space, an optional sign, then
    the literal. *)
Definition int (s : str) : result Z :=
  let bad := Raise (ValueError ("invalid literal for int() with base 10: " ++ s)) in
  match strip s with
  | [] => bad
  | c :: t =>
      if (ord c =? 45)%nat then
        match int_body false 0 t with Some z => Return (- z)%Z | None => bad end
      else if (ord c =? 43)%nat then
        match int_body false 0 t with Some z => Return z | None => bad end
      else
        match int_body false 0 (c :: t) with Some z => Return z | None => bad end
  end.

(** ** Floats: IEEE 754 binary64 *)

Definition float := spec_float.
Definition prec : Z := 53.
Definition emax : Z := 1024.

Definition fmul : float -> float -> float := SFmul prec emax.
Definition fdiv : float -> float -> float := SFdiv prec emax.
Definition flt : float -> float -> bool := SFltb.
Definition feq : float -> float -> bool := SFeqb.

(** The nearest binary64 to an integer, ties to even; an infinity when
    the integer is out of range. *)
Definition round_Z (z : Z) : float := binary_normalize prec emax z 0 false.

(** [float(n)] for an [int]: out of range is an [OverflowError]. *)
Definition float_of_int (z : Z) : result float :=
  match round_Z z with
  | S754_infinity _ => Raise (OverflowError "int too large to convert to float")
  | f => Return f
  end.

(** Numbers as the interpreter has them: an [int] or a [float]. *)
Inductive number : Type :=
| PyInt (z : Z)
| PyFloat (f : float).

(** [a / b] on two non-zero small integers, as in the literals [1/365]. *)
Definition true_div (a b : Z) : float := fdiv (round_Z a) (round_Z b).

(** [n * mult] for an [int] [n]: the product is an [int] when [mult] is
    one, otherwise [n] is converted and the product is rounded. *)
Definition mul_int (n : Z) (mult : number) : result number :=
  match mult with
  | PyInt m => Return (PyInt (n * m))
  | PyFloat m =>
      let* x := float_of_int n in
      Return (PyFloat (fmul x m))
  end.

(** ** The regular expression [(\d*\.\d+|\d+)] *)

(** The longest run of [\d] at the head of [s], and what follows. *)
Fixpoint span_decimal (s : str) : str * str :=
  match s with
  | c :: s' =>
      if is_decimal c
      then let (ds, rest) := span_decimal s' in (c :: ds, rest)
      else ([], s)
  | [] => ([], [])
  end.

Definition is_dot (c : ascii) : bool := (ord c =? 46)%nat.

(** A match anchored at the head of [s].  The first alternative, digits
    (possibly none), a dot, digits (at least one), is tried first; the
    second is a non-empty run of digits.  Both are greedy. *)
Definition match_here (s : str) : option (str * str) :=
  let (ds, r) := span_decimal s in
  let alt2 := match ds with [] => None | _ => Some (ds, r) end in
  match r with
  | c :: r' =>
      if is_dot c then
        match span_decimal r' with
        | ([], _) => alt2
        | (fs, r'') => Some (ds ++ c :: fs, r'')
        end
      else alt2
  | [] => alt2
  end.

(** [pattern.search(s)]: the leftmost match, with the text before it and
    the text after it. *)
Fixpoint search (s : str) : option (str * str * str) :=
  match match_here s with
  | Some (m, rest) => Some ([], m, rest)
  | None =>
      match s with
      | [] => None
      | c :: s' =>
          match search s' with
          | Some (pre, m, rest) => Some (c :: pre, m, rest)
          | None => None
          end
      end
  end.

Definition inspect {A} (a : A) : {b : A | a = b} := exist _ a eq_refl.

(** [re.split(r'(\d*\.\d+|\d+)', s)]: the pattern has one capturing group,
    so the matched texts are kept between the pieces; the search resumes
    where the last match ended.  A match is never empty, which is why the
    text left to search gets shorter. *)
Equations? re_split (s : str) : list str by wf (length s) lt :=
  re_split s with inspect (search s) => {
    | exist _ None _ => [s];
    | exist _ (Some (pre, m, rest)) H => pre :: m :: re_split rest }.
Proof.
  clear re_split.
  assert (Hspan : forall t, length (fst (span_decimal t)) + length (snd (span_decimal t))
                            = length t).
  { induction t as [|c t IH]; simpl; [reflexivity|].
    destruct (is_decimal c); [|reflexivity].
    destruct (span_decimal t); simpl in *; lia. }
  assert (Hhere : forall t m0 r0, match_here t = Some (m0, r0) -> length r0 < length t).
  { intros t m0 r0. unfold match_here.
    pose proof (Hspan t) as Ht. destruct (span_decimal t) as [ds r]; simpl in Ht.
    assert (Halt : match ds with [] => None | _ => Some (ds, r) end = Some (m0, r0) ->
                   length r0 < length t).
    { destruct ds; [discriminate|]. intros [= <- <-]. simpl in Ht. lia. }
    destruct r as [|c r']; [exact Halt|].
    destruct (is_dot c); [|exact Halt].
    pose proof (Hspan r') as Hr. destruct (span_decimal r') as [fs r'']; simpl in Hr.
    destruct fs; [exact Halt|]. intros [= <- <-]. simpl in *. lia. }
  revert pre m rest H.
  induction s as [|c s IH]; intros pre m rest; simpl; [discriminate|].
  destruct (match_here (c :: s)) as [[m0 r0]|] eqn:E.
  - intros [= <- <- <-]. apply (Hhere _ _ _ E).
  - destruct (search s) as [[[p1 m1] r1]|]; [|discriminate].
    intros [= <- <- <-]. specialize (IH _ _ _ eq_refl). simpl. lia.
Qed.

(** ** Lists *)

(** [l[i]] for [i >= 0]. *)
Definition getitem {A} (l : list A) (i : nat) : result A :=
  match nth_error l i with
  | Some a => Return a
  | None => Raise (IndexError "index out of range")
  end.

(** [l[-1]]. *)
Definition getlast {A} (l : list A) : result A :=
  match rev l with
  | a :: _ => Return a
  | [] => Raise (IndexError "index out of range")
  end.

Fixpoint set_nth {A} (l : list A) (i : nat) (v : A) : list A :=
  match l, i with
  | [], _ => []
  | _ :: l', O => v :: l'
  | a :: l', S j => a :: set_nth l' j v
  end.

(** [l[i] = v] for [i >= 0]. *)
Definition setitem {A} (l : list A) (i : nat) (v : A) : result (list A) :=
  if (i <? length l)%nat then Return (set_nth l i v)
  else Raise (IndexError "assignment index out of range").

(** [x in l] and [l.remove(x)] on a list of strings. *)
Definition contains (x : str) (l : list str) : bool := existsb (str_eqb x) l.

Fixpoint remove (x : str) (l : list str) : result (list str) :=
  match l with
  | [] => Raise (ValueError "list.remove(x): x not in list")
  | y :: l' =>
      if str_eqb y x then Return l'
      else let* r := remove x l' in Return (y :: r)
  end.

(** [(a, b) = l]. *)
Definition unpack2 {A} (l : list A) : result (A * A) :=
  match l with
  | [a; b] => Return (a, b)
  | _ :: _ :: _ :: _ => Raise (ValueError "too many values to unpack (expected 2)")
  | _ => Raise (ValueError "not enough values to unpack (expected 2)")
  end.

(** [min(l)] on floats: the first element that no later one is below. *)
Fixpoint min_from (m : float) (l : list float) : float :=
  match l with
  | [] => m
  | x :: l' => min_from (if flt x m then x else m) l'
  end.

Definition min (l : list float) : result float :=
  match l with
  | [] => Raise (ValueError "min() arg is an empty sequence")
  | x :: l' => Return (min_from x l')
  end.

(** ** [functools.lru_cache] *)

(** The decorator keeps, for one function, a table from the call's
    arguments to the value returned, most recently used entry first.
    [@lru_cache()] leaves [maxsize] at its default. *)
Definition maxsize : nat := 128.
Arguments maxsize : simpl never.

Section LruCache.
Context {K V W : Type}.
(** Equality of argument tuples. *)
Variable key_eqb : K -> K -> bool.
(** Where the table of this function lives in the state [W]. *)
Variable cache : W -> list (K * V).
Variable set_cache : list (K * V) -> W -> W.
(** The decorated function. *)
Variable user_function : K -> W -> result V * W.

Fixpoint cache_get (k : K) (t : list (K * V)) : option V :=
  match t with
  | [] => None
  | (k', v) :: t' => if key_eqb k k' then Some v else cache_get k t'
  end.

Fixpoint cache_del (k : K) (t : list (K * V)) : list (K * V) :=
  match t with
  | [] => []
  | (k', v) :: t' => if key_eqb k k' then t' else (k', v) :: cache_del k t'
  end.

(** A hit moves the entry to the front and does not run the function.
    On a miss the function runs; an exception leaves the table alone; a
    value is stored at the front, the entry at the back making room for
    it when the table is full. *)
Definition lru_cache (k : K) (w : W) : result V * W :=
  match cache_get k (cache w) with
  | Some v => (Return v, set_cache ((k, v) :: cache_del k (cache w)) w)
  | None =>
      let (r, w') := user_function k w in
      match r with
      | Raise e => (Raise e, w')
      | Return v =>
          let t := cache w' in
          match cache_get k t with
          | Some _ => (Return v, w')
          | None =>
              if (maxsize <=? length t)%nat
              then (Return v, set_cache ((k, v) :: removelast t) w')
              else (Return v, set_cache ((k, v) :: t) w')
          end
      end
  end.
End LruCache.

End Py.

Import Py.

(* ===================================================================== *)
(** * Tables *)
(* ===================================================================== *)

(** What the wrapper uses of [pandas.DataFrame]: a row index and named
    columns, every column as long as the index.  Column names are taken to
    be distinct, as the terminal's are; a cell is a string, a number,
    another table (bulk fields) or something else ([NaN], a time stamp). *)
Module Pandas.

Inductive value : Type :=
| VStr (s : str)
| VNum (x : number)
| VFrame (f : frame)
| VOther
with frame : Type :=
| DataFrame (index : list str) (columns : list (str * list value)).

Definition index (f : frame) : list str :=
  let (i, _) := f in i.

Definition columns (f : frame) : list (str * list value) :=
  let (_, c) := f in c.

Fixpoint assoc {A} (k : str) (d : list (str * A)) : option A :=
  match d with
  | [] => None
  | (k', a) :: d' => if str_eqb k k' then Some a else assoc k d'
  end.

(** [name in df.columns]. *)
Definition has_column (name : str) (f : frame) : bool :=
  match assoc name (columns f) with Some _ => true | None => false end.

(** [df[name]]. *)
Definition column (name : str) (f : frame) : result (list value) :=
  match assoc name (columns f) with
  | Some c => Return c
  | None => Raise (KeyError name)
  end.

Fixpoint assoc_set {A} (k : str) (a : A) (d : list (str * A)) : list (str * A) :=
  match d with
  | [] => [(k, a)]
  | (k', a') :: d' =>
      if str_eqb k k' then (k, a) :: d' else (k', a') :: assoc_set k a d'
  end.

(** [df[name] = cells]: the column is replaced, or added at the end. *)
Definition set_column (name : str) (cells : list value) (f : frame) : frame :=
  DataFrame (index f) (assoc_set name cells (columns f)).

(** [df.rename(columns=mapping, inplace=True)]. *)
Definition rename (mapping : list (str * str)) (f : frame) : frame :=
  DataFrame (index f)
    (map (fun '(name, cells) =>
            match assoc name mapping with
            | Some name' => (name', cells)
            | None => (name, cells)
            end) (columns f)).

(** [df.iloc[0, 0]]. *)
Definition iloc_0_0 (f : frame) : result value :=
  match index f, columns f with
  | _ :: _, (_, v :: _) :: _ => Return v
  | _, _ => Raise (IndexError "single positional indexer is out-of-bounds")
  end.

(** [df.loc[df.index[0], name]], the labels of the index being distinct. *)
Definition loc_first (name : str) (f : frame) : result value :=
  match index f with
  | [] => Raise (IndexError "index 0 is out of bounds for axis 0 with size 0")
  | _ :: _ =>
      let* c := column name f in
      match c with
      | v :: _ => Return v
      | [] => Raise (IndexError "index 0 is out of bounds for axis 0 with size 0")
      end
  end.

(** [cells[mask]]: the cells where the mask holds. *)
Fixpoint select {A} (mask : list bool) (cells : list A) : list A :=
  match mask, cells with
  | b :: mask', v :: cells' =>
      if b then v :: select mask' cells' else select mask' cells'
  | _, _ => []
  end.

(** [float(v)] for a cell; the reading of numerals in strings is not
    modelled, a cell that is not a number is refused. *)
Definition float_of_value (v : value) : result float :=
  match v with
  | VNum (PyFloat f) => Return f
  | VNum (PyInt z) => float_of_int z
  | _ => Raise (TypeError "float() argument must be a number")
  end.

(** [float(series)]: a series converts when it holds exactly one cell. *)
Definition float_of_series (cells : list value) : result float :=
  match cells with
  | [v] => float_of_value v
  | _ => Raise (TypeError "cannot convert the series to float")
  end.

End Pandas.

Import Pandas.

(* ===================================================================== *)
(** * The terminal *)
(* ===================================================================== *)

(** The first argument of the terminal's calls: one security or several. *)
Inductive securities : Type :=
| One (sid : str)
| Many (sids : list str).

(** The second: one field or several. *)
Inductive fields : Type :=
| Field (fld : str)
| Fields (flds : list str).

(** A call of [Terminal.get_reference_data]; a flag that the caller leaves
    out is [None]. *)
Record request : Type := Request {
  sids : securities;
  flds : fields;
  ignore_security_error : option Z;
  ignore_field_error : option Z;
  overrides : list (str * str)
}.

(** [datetime.datetime], as far as the wrapper looks into it. *)
Record datetime : Type := Datetime { year : Z; month : Z; day : Z }.

Inductive date_arg : Type :=
| DateStr (s : str)
| DateObj (d : datetime).

(** The arguments of the memoised methods. *)
Definition general_fields_key : Type :=
  securities * fields * Z * Z * list (str * str).
Definition general_field_single_key : Type := str * str.
Definition ois_key : Type := date_arg * float * str * str.

(** The state a [BBG] object works in: what the terminal [self.dm] would
    answer now (the answer of [get_reference_data(...).as_frame()]), the
    requests it was sent, latest first, and one table per memoised
    method. *)
Record world : Type := World {
  dm : request -> result frame;
  sent : list request;
  general_fields_cache : list (general_fields_key * frame);
  general_field_single_cache : list (general_field_single_key * value);
  tenor_tag_cache : list (str * number);
  ois_cache : list (ois_key * (float * frame))
}.

Definition set_dm (d : request -> result frame) (w : world) : world :=
  World d (sent w) (general_fields_cache w) (general_field_single_cache w)
        (tenor_tag_cache w) (ois_cache w).

Definition set_sent (s : list request) (w : world) : world :=
  World (dm w) s (general_fields_cache w) (general_field_single_cache w)
        (tenor_tag_cache w) (ois_cache w).

Definition set_general_fields_cache t (w : world) : world :=
  World (dm w) (sent w) t (general_field_single_cache w)
        (tenor_tag_cache w) (ois_cache w).

Definition set_general_field_single_cache t (w : world) : world :=
  World (dm w) (sent w) (general_fields_cache w) t
        (tenor_tag_cache w) (ois_cache w).

Definition set_tenor_tag_cache t (w : world) : world :=
  World (dm w) (sent w) (general_fields_cache w) (general_field_single_cache w)
        t (ois_cache w).

Definition set_ois_cache t (w : world) : world :=
  World (dm w) (sent w) (general_fields_cache w) (general_field_single_cache w)
        (tenor_tag_cache w) t.

(** A fresh [BBG(...)] object on a terminal that answers [d]. *)
Definition new_world (d : request -> result frame) : world :=
  World d [] [] [] [] [].

(** Methods are state transformers that return or raise. *)
Definition M (A : Type) : Type := world -> result A * world.

Definition ret {A} (a : A) : M A := fun w => (Return a, w).
Definition raise {A} (e : exn) : M A := fun w => (Raise e, w).
Definition lift {A} (r : result A) : M A := fun w => (r, w).

Definition bindM {A B} (m : M A) (k : A -> M B) : M B :=
  fun w =>
    match m w with
    | (Return a, w') => k a w'
    | (Raise e, w') => (Raise e, w')
    end.

Notation "x <- m ;; k" := (bindM m (fun x => k))
  (at level 61, m at next level, right associativity).

(** A list comprehension whose element expression is a method call. *)
Fixpoint for_each {A B} (f : A -> M B) (xs : list A) : M (list B) :=
  match xs with
  | [] => ret []
  | x :: xs' =>
      y <- f x ;;
      ys <- for_each f xs' ;;
      ret (y :: ys)
  end.

(** [self.dm.get_reference_data(...).as_frame()]: the request is sent and
    the terminal's answer, a table or an exception, comes back. *)
Definition get_reference_data (req : request) : M frame :=
  fun w => (dm w req, set_sent (req :: sent w) w).

(** Equality of argument tuples, for the memoisation tables. *)
Definition eqb_of {A} (dec : forall a b : A, {a = b} + {a <> b}) (a b : A) : bool :=
  if dec a b then true else false.

Definition str_eq_dec : forall a b : str, {a = b} + {a <> b} :=
  list_eq_dec ascii_dec.

Definition securities_eq_dec (a b : securities) : {a = b} + {a <> b}.
Proof. decide equality; [apply str_eq_dec | apply (list_eq_dec str_eq_dec)]. Defined.

Definition fields_eq_dec (a b : fields) : {a = b} + {a <> b}.
Proof. decide equality; [apply str_eq_dec | apply (list_eq_dec str_eq_dec)]. Defined.

Definition float_eq_dec (a b : float) : {a = b} + {a <> b}.
Proof.
  unfold float. decide equality;
    try apply Bool.bool_dec; try apply Z.eq_dec; apply Pos.eq_dec.
Defined.

Definition date_arg_eq_dec (a b : date_arg) : {a = b} + {a <> b}.
Proof.
  decide equality; [apply str_eq_dec|].
  decide equality; apply Z.eq_dec.
Defined.

Definition general_fields_key_eq_dec (a b : general_fields_key) : {a = b} + {a <> b}.
Proof.
  unfold general_fields_key.
  repeat decide equality; try apply str_eq_dec; apply (list_eq_dec str_eq_dec).
Defined.

Definition general_field_single_key_eq_dec (a b : general_field_single_key) :
  {a = b} + {a <> b}.
Proof. unfold general_field_single_key. decide equality; apply str_eq_dec. Defined.

Definition ois_key_eq_dec (a b : ois_key) : {a = b} + {a <> b}.
Proof.
  unfold ois_key.
  decide equality; try apply str_eq_dec.
  decide equality; try apply str_eq_dec.
  decide equality; [apply float_eq_dec | apply date_arg_eq_dec].
Defined.

(* ===================================================================== *)
(** * The module-level helpers *)
(* ===================================================================== *)

Definition split_letters_numbers (str_in : str) : result (list str) :=
  let ret := re_split str_in in
  if contains empty ret then remove empty ret else Return ret.

(** [str_year] is the argument after [str(str_year)]. *)
Definition insert_year_into_ticker (str_ticker str_year : str) : result str :=
  let* mod_ticker := split_letters_numbers str_ticker in
  if (length mod_ticker <? 3)%nat then
    Raise (IOError "the ticker passed in needs to conform to bbg standards.")
  else
    let* digits := getitem mod_ticker 1 in
    if negb (isdigit digits) then
      Raise (IOError "cannot find year indicator in the ticker.")
    else if negb (length str_year =? 4)%nat then
      Raise (IOError "year must be a four digit input")
    else
      let* y := getitem str_year 2 in
      let* mod_ticker := setitem mod_ticker 1 (y :: digits) in
      Return (join mod_ticker).

(* ===================================================================== *)
(** * The class BBG *)
(* ===================================================================== *)

(** The body of [convert_bbg_tenor_tag], under its decorator. *)
Definition convert_bbg_tenor_tag__wrapped (str_tag : str) : result number :=
  let* parts := split_letters_numbers str_tag in
  let* (num, letter) := unpack2 parts in
  let* num := int num in
  let* mult :=
    if str_eqb (lower letter) "d" then Return (PyFloat (true_div 1 365))
    else if str_eqb (lower letter) "w" then Return (PyFloat (true_div 1 52))
    else if str_eqb (lower letter) "m" then Return (PyFloat (true_div 1 12))
    else if str_eqb (lower letter) "y" then Return (PyInt 1)
    else Raise (TypeError "cannot find appropriate letter for tenor") in
  mul_int num mult.

Definition convert_bbg_tenor_tag : str -> M number :=
  lru_cache str_eqb tenor_tag_cache set_tenor_tag_cache
    (fun str_tag => lift (convert_bbg_tenor_tag__wrapped str_tag)).

(** [d.update(more)]. *)
Definition dict_update {A} (d more : list (str * A)) : list (str * A) :=
  fold_left (fun acc '(k, a) => assoc_set k a acc) more d.

Definition keys {A} (d : list (str * A)) : list str := map fst d.

Definition dict_fields_default : list (str * str) :=
  [ ("last_price" : str, "last_price" : str);
    ("bid" : str, "bid" : str);
    ("ask" : str, "ask" : str);
    ("ivol_bid" : str, "ivol_bid" : str);
    ("ivol_mid" : str, "ivol_mid" : str);
    ("ivol_ask" : str, "ivol_ask" : str);
    ("delta_mid_rt" : str, "delta" : str);
    ("gamma" : str, "gamma" : str);
    ("vega" : str, "vega" : str);
    ("opt_theta" : str, "theta" : str);
    ("rho" : str, "rho" : str);
    ("opt_cont_size" : str, "opt_cont_size" : str);
    ("opt_undl_px" : str, "underlying_price" : str);
    ("underlying_security_des" : str, "underlying_ticker" : str);
    ("opt_strike_px" : str, "strike" : str);
    ("opt_put_call" : str, "pc" : str) ].

(** [x.replace(' COMB', '')] on a cell. *)
Definition strip_comb (x : value) : result value :=
  match x with
  | VStr s => Return (VStr (replace " COMB" empty s))
  | _ => Raise (AttributeError "object has no attribute 'replace'")
  end.

(** The security type of a single option or of an option chain. *)
Definition security_type (str_ticker : securities) : result str :=
  match str_ticker with
  | One s => getlast (split s)
  | Many l => let* s := getitem l 0 in getlast (split s)
  end.

(** [dict_fields] of [get_option_fields] once the security type is known:
    the default fields and those of the type. *)
Definition option_dict_fields (str_type : str) : result (list (str * str)) :=
  let dict_fields := dict_fields_default in
  let* dict_append :=
    if str_eqb (lower str_type) "equity" then
      Return [("opt_expire_dt" : str, "last_tradeable_dt" : str)]
    else if str_eqb (lower str_type) "comdty" then
      Return [("opt_expire_dt" : str, "last_tradeable_dt" : str);
              ("current_contract_month_yr" : str, "cont_month_year" : str)]
    else Raise (TypeError (str_type ++ " is not currently implemented.")) in
  Return (dict_update dict_fields dict_append).

Section BBG.

(** What the wrapper calls in [datetime] and [scipy]. *)

(** [d.strftime('%Y%m%d')]. *)
Variable strftime_Ymd : datetime -> str.
(** [datetime.datetime.strptime(x, '%b %y')]. *)
Variable strptime_b_y : str -> result datetime.
(** [scipy.interpolate.interp1d(x, y, kind='cubic')(x_new)]. *)
Variable interp1d_cubic : list float -> list value -> float -> result float.

Definition contract_date (x : value) : result datetime :=
  match x with
  | VStr s => strptime_b_y s
  | _ => Raise (TypeError "strptime() argument 1 must be str")
  end.

(** The statement of [get_option_fields] that builds the table
    [pd.DataFrame(index=[str_ticker])] is left out: the next statement
    drops that table. *)
Definition get_option_fields (str_ticker : securities) : M frame :=
  str_type <- lift (security_type str_ticker) ;;
  dict_fields <- lift (option_dict_fields str_type) ;;
  option_ret <- get_reference_data
                  (Request str_ticker (Fields (keys dict_fields)) None None []) ;;
  let option_ret := rename dict_fields option_ret in
  option_ret <-
    (if has_column "cont_month_year" option_ret then
       c <- lift (column "cont_month_year" option_ret) ;;
       months <- lift (traverse (fun x => let* d := contract_date x in
                                          Return (VNum (PyInt (month d)))) c) ;;
       let option_ret := set_column "month" months option_ret in
       c <- lift (column "cont_month_year" option_ret) ;;
       years <- lift (traverse (fun x => let* d := contract_date x in
                                         Return (VNum (PyInt (year d)))) c) ;;
       ret (set_column "year" years option_ret)
     else ret option_ret) ;;
  c <- lift (column "underlying_ticker" option_ret) ;;
  stripped <- lift (traverse strip_comb c) ;;
  ret (set_column "underlying_ticker" stripped option_ret).

Definition get_general_fields__wrapped (args : general_fields_key) : M frame :=
  let '(str_ticker, str_fields, ignore_security_error, ignore_field_error,
        overrides) := args in
  get_reference_data (Request str_ticker str_fields (Some 0%Z) (Some 0%Z) overrides).

Definition get_general_fields : general_fields_key -> M frame :=
  lru_cache (eqb_of general_fields_key_eq_dec)
    general_fields_cache set_general_fields_cache get_general_fields__wrapped.

Definition get_general_field_single__wrapped (args : general_field_single_key)
  : M value :=
  let '(str_ticker, str_field) := args in
  d <- get_reference_data (Request (One str_ticker) (Field str_field) None None []) ;;
  ret_val <- lift (iloc_0_0 d) ;;
  if str_eqb (lower str_field) "underlying_security_des"
  then lift (strip_comb ret_val)
  else ret ret_val.

Definition get_general_field_single : general_field_single_key -> M value :=
  lru_cache (eqb_of general_field_single_key_eq_dec)
    general_field_single_cache set_general_field_single_cache
    get_general_field_single__wrapped.

(** The curve of a currency; a local that no branch assigned is [None]. *)
Definition str_curve_of (str_currency : str) : option str :=
  if str_eqb (lower str_currency) "usd" then Some ("YCSW0042 Index" : str)
  else if str_eqb (lower str_currency) "eur" then Some ("YCSW0133 Index" : str)
  else if str_eqb (lower str_currency) "gbp" then Some ("YCSW0141 Index" : str)
  else if str_eqb (lower str_currency) "cad" then Some ("YCSW0147 Index" : str)
  else None.

(** Reading a local variable. *)
Definition read_local {A} (name : str) (v : option A) : result A :=
  match v with
  | Some a => Return a
  | None => Raise (UnboundLocalError name)
  end.

Definition curve_columns : list (str * str) :=
  [ ("Tenor" : str, "tenor" : str);
    ("Tenor Ticker" : str, "ticker" : str);
    ("Ask Yield" : str, "ask" : str);
    ("Mid Yield" : str, "mid" : str);
    ("Bid Yield" : str, "bid" : str);
    ("Last Update" : str, "last_update" : str) ].

(** A cell of a table used as a table, and as the argument of
    [convert_bbg_tenor_tag]. *)
Definition as_frame (v : value) : result frame :=
  match v with
  | VFrame f => Return f
  | _ => Raise (AttributeError "object has no attribute 'rename'")
  end.

Definition as_tag (v : value) : result str :=
  match v with
  | VStr s => Return s
  | _ => Raise (TypeError "expected string or bytes-like object")
  end.

(** A tenor as the column holds it: a column of a table is float64 as
    soon as one of the values assigned to it is a float.  (A column of
    integers only stays integral; its comparisons agree with those of
    the floats up to 2^53, and the model does not tell them apart.) *)
Definition as_float64 (x : number) : result float :=
  match x with
  | PyFloat f => Return f
  | PyInt z => float_of_int z
  end.

(** [get_ois] up to "convert the bbg indicator to years": the curve of
    the currency is read from the terminal, its columns are renamed and
    its tenor labels are converted.  Returns the tenors in years and the
    table that now holds them. *)
Definition get_ois_curve (date : date_arg) (str_currency : str)
  : M (list float * frame) :=
  let str_curve := str_curve_of str_currency in
  let date := match date with
              | DateStr s => s
              | DateObj d => strftime_Ymd d
              end in
  str_curve <- lift (read_local "str_curve" str_curve) ;;
  d <- get_reference_data
         (Request (One str_curve) (Field "curve_tenor_rates") None None
                  [("curve_date" : str, date)]) ;;
  cell <- lift (loc_first "curve_tenor_rates" d) ;;
  ret_curve <- lift (as_frame cell) ;;
  let ret_curve := rename curve_columns ret_curve in
  tags <- lift (column "tenor" ret_curve) ;;
  converted <- for_each (fun l => tag <- lift (as_tag l) ;;
                                  convert_bbg_tenor_tag tag) tags ;;
  tenors <- lift (traverse as_float64 converted) ;;
  ret (tenors,
       set_column "tenor" (map (fun t => VNum (PyFloat t)) tenors) ret_curve).

(** "interploate for the target rate": the last statement of [get_ois],
    on the tenors in years and the table that holds them. *)
Definition get_ois_rate (tgt_tenor : float) (num_side : str)
           (tenors : list float) (ret_curve : frame) : result float :=
  let* lowest := min tenors in
  if flt tgt_tenor lowest then
    let* lowest := min tenors in
    let mask := map (fun t => feq t lowest) tenors in
    let* side := column num_side ret_curve in
    float_of_series (select mask side)
  else
    let* side := column num_side ret_curve in
    interp1d_cubic tenors side tgt_tenor.

Definition get_ois__wrapped (args : ois_key) : M (float * frame) :=
  let '(date, tgt_tenor, str_currency, num_side) := args in
  curve <- get_ois_curve date str_currency ;;
  let '(tenors, ret_curve) := curve in
  ret_rate <- lift (get_ois_rate tgt_tenor num_side tenors ret_curve) ;;
  ret (ret_rate, ret_curve).

Definition get_ois : ois_key -> M (float * frame) :=
  lru_cache (eqb_of ois_key_eq_dec) ois_cache set_ois_cache get_ois__wrapped.

End BBG.

(* ===================================================================== *)
(** * Vocabulary of the properties *)
(* ===================================================================== *)

(** The conversion table of the tenor units, by unit letter. *)
Definition unit_factor (u : ascii) : option number :=
  match u with
  | "D"%char | "d"%char => Some (PyFloat (true_div 1 365))
  | "W"%char | "w"%char => Some (PyFloat (true_div 1 52))
  | "M"%char | "m"%char => Some (PyFloat (true_div 1 12))
  | "Y"%char | "y"%char => Some (PyInt 1)
  | _ => None
  end.

(** A terminal that is not connected: every request fails. *)
Definition offline : request -> result frame :=
  fun _ => Raise (LibraryError "tia" "no connection").

(** The table of [convert_bbg_tenor_tag] holds nothing but what its body
    returns. *)
Definition tenor_cache_sound (w : world) : Prop :=
  forall tag x, In (tag, x) (tenor_tag_cache w) ->
                convert_bbg_tenor_tag__wrapped tag = Return x.

(** The table of [get_ois] holds nothing but what its body returned in
    some state. *)
Definition ois_cache_sound
    (strftime_Ymd : datetime -> str)
    (interp1d_cubic : list float -> list value -> float -> result float)
    (w : world) : Prop :=
  forall args x, In (args, x) (ois_cache w) ->
    exists w0, fst (get_ois__wrapped strftime_Ymd interp1d_cubic args w0) = Return x.

(** A curve is unique by tenor: no two of its rows compare equal. *)
Definition unique_by_tenor (tenors : list float) : Prop :=
  forall i j a b, i <> j ->
    nth_error tenors i = Some a -> nth_error tenors j = Some b -> feq a b = false.

Fixpoint all_distinct (tenors : list float) : bool :=
  match tenors with
  | [] => true
  | a :: rest =>
      forallb (fun b => negb (feq a b) && negb (feq b a)) rest && all_distinct rest
  end.

(** A column of rates. *)
Definition rate_cells (rates : list float) : list value :=
  map (fun r => VNum (PyFloat r)) rates.

(** Two stand-ins for the interpolation library.  The first accepts any
    number of points.  The second refuses fewer than four with an error of
    its own, as the cubic spline of scipy does; where it accepts it
    answers like the first.  Neither computes a spline: they serve where
    only the hand-over to the library matters. *)
Definition interp1d_any (x : list float) (y : list value) (x_new : float)
  : result float :=
  match y with
  | v :: _ => float_of_value v
  | [] => Raise (ValueError "x and y arrays must have at least 1 entry")
  end.

Definition interp1d_min4 (x : list float) (y : list value) (x_new : float)
  : result float :=
  if (length x <? 4)%nat
  then Raise (ValueError "The number of derivatives at boundaries does not match")
  else interp1d_any x y x_new.

(** [strftime('%Y%m%d')] for four-digit years. *)
Definition strftime_Ymd_4 (d : datetime) : str :=
  let digit (n : Z) : ascii := chr (48 + Z.to_nat (n mod 10)) in
  [digit (year d / 1000); digit (year d / 100); digit (year d / 10); digit (year d);
   digit (month d / 10); digit (month d); digit (day d / 10); digit (day d)]%Z.

(** A terminal that answers every request with the same one-row table,
    whose single bulk cell is [curve]. *)
Definition terminal_with_curve (curve : frame) : request -> result frame :=
  fun _ => Return (DataFrame ["YCSW0042 Index" : str]
                             [("curve_tenor_rates" : str, [VFrame curve])]).

(** A curve as the terminal sends it: tenor labels and mid yields. *)
Definition bbg_curve (tags : list str) (mids : list float) : frame :=
  DataFrame tags [("Tenor" : str, map VStr tags); ("Mid Yield" : str, rate_cells mids)].

(** The curve of the spec's example, (1, 1.0), (2, 1.2), (3, 1.3),
    (6, 1.5) in years and per cent, and a curve of one point. *)
Definition example_curve : frame :=
  bbg_curve ["1Y" : str; "2Y" : str; "3Y" : str; "6Y" : str]
            [round_Z 1; true_div 12 10; true_div 13 10; true_div 3 2].


(** A stand-in for [strptime(x, '%b %y')] on texts of the form "Dec 19":
    an English month name of three letters, a space and two digits, the
    century chosen as POSIX does. *)
Definition month_names : list str :=
  ["jan" : str; "feb" : str; "mar" : str; "apr" : str; "may" : str; "jun" : str;
   "jul" : str; "aug" : str; "sep" : str; "oct" : str; "nov" : str; "dec" : str].

Fixpoint index_from (i : Z) (x : str) (l : list str) : option Z :=
  match l with
  | [] => None
  | y :: l' => if str_eqb x y then Some i else index_from (i + 1) x l'
  end.

Definition strptime_b_y_en (x : str) : result datetime :=
  let bad := Raise (ValueError "time data does not match format '%b %y'") in
  match x with
  | [a; b; c; sp; y1; y0] =>
      if (ord sp =? 32)%nat && is_decimal y1 && is_decimal y0 then
        match index_from 1 (lower [a; b; c]) month_names with
        | Some m =>
            let yy := (10 * digit_value y1 + digit_value y0)%Z in
            Return (Datetime (if (yy <? 69)%Z then 2000 + yy else 1900 + yy) m 1)
        | None => bad
        end
      else bad
  | _ => bad
  end.

(** A terminal that answers every request with the same table. *)
Definition terminal_with_table (f : frame) : request -> result frame :=
  fun _ => Return f.

(** What the terminal may answer for an option on a future: the columns
    carry the names of the fields asked for. *)
Definition example_option_table : frame :=
  DataFrame ["CLZ9C 60 Comdty" : str]
    [("last_price" : str, [VNum (PyFloat (true_div 3 2))]);
     ("underlying_security_des" : str, [VStr "CLZ9 COMB Comdty"]);
     ("opt_put_call" : str, [VStr "Call"]);
     ("current_contract_month_yr" : str, [VStr "DEC 19"])].

Definition example_underlying_table : frame :=
  DataFrame ["CLZ9C 60 Comdty" : str]
    [("underlying_security_des" : str, [VStr "CLZ9 COMB Comdty"])].

(** What may happen to a [BBG] object between two calls of one of its
    memoised methods: the method is called, with any arguments, or
    something else changes the state, the terminal's data for one. *)
Section Events.
Context {K V : Type}.
Variable key_eqb : K -> K -> bool.
Variable cache : world -> list (K * V).
Variable set_cache : list (K * V) -> world -> world.
Variable body : K -> M V.

Inductive event : Type :=
| Call (k : K)
| Elsewhere (g : world -> world).

Definition run_event (w : world) (ev : event) : world :=
  match ev with
  | Call k => snd (lru_cache key_eqb cache set_cache body k w)
  | Elsewhere g => g w
  end.

Definition run (es : list event) (w : world) : world :=
  fold_left run_event es w.

(** What happens elsewhere leaves the table of the method alone. *)
Definition quiet (ev : event) : Prop :=
  match ev with
  | Call _ => True
  | Elsewhere g => forall w, cache (g w) = cache w
  end.

(** The calls of the method with arguments other than [k]. *)
Definition is_other_call (k : K) (ev : event) : bool :=
  match ev with
  | Call k' => negb (key_eqb k k')
  | Elsewhere _ => false
  end.

Definition other_calls (k : K) (es : list event) : nat :=
  length (filter (is_other_call k) es).

(** The entry of [k] is among the first [n] of the table. *)
Definition within_first (k : K) (v : V) (n : nat) (t : list (K * V)) : Prop :=
  cache_get key_eqb k (firstn n t) = Some v.
End Events.

(** Two answers of the terminal to the same question, and tickers to ask
    about in between. *)
Definition old_price : frame :=
  DataFrame ["IBM US Equity" : str] [("px_last" : str, [VNum (PyInt 100)])].

Definition new_price : frame :=
  DataFrame ["IBM US Equity" : str] [("px_last" : str, [VNum (PyInt 101)])].

Definition other_ticker (i : nat) : general_field_single_key :=
  (repeat "X"%char (S i) ++ " US Equity", "px_last" : str).

(** A method keeps a property of the state. *)
Definition preserves {A} (P : world -> Prop) (m : M A) : Prop :=
  forall w, P w -> P (snd (m w)).

(** The states of a [BBG] object: a fresh object, then calls of its
    methods and changes of the terminal's data, in any order. *)
Section Reachable.
Variable strftime_Ymd : datetime -> str.
Variable strptime_b_y : str -> result datetime.
Variable interp1d_cubic : list float -> list value -> float -> result float.

Inductive step : world -> world -> Prop :=
| step_upstream w d :
    step w (set_dm d w)
| step_convert_bbg_tenor_tag w str_tag :
    step w (snd (convert_bbg_tenor_tag str_tag w))
| step_get_option_fields w str_ticker :
    step w (snd (get_option_fields strptime_b_y str_ticker w))
| step_get_general_fields w args :
    step w (snd (get_general_fields args w))
| step_get_general_field_single w args :
    step w (snd (get_general_field_single args w))
| step_get_ois w args :
    step w (snd (get_ois strftime_Ymd interp1d_cubic args w)).

Inductive reachable : world -> Prop :=
| reachable_new d : reachable (new_world d)
| reachable_step w w' : reachable w -> step w w' -> reachable w'.
End Reachable.

(** A text without decimal digit, and a text of letters: characters that
    are neither decimal digits nor dots, so that no number starts in it. *)
Definition no_digit (s : str) : bool :=
  forallb (fun c => negb (is_decimal c)) s.

Definition letters (s : str) : bool :=
  forallb (fun c => negb (is_decimal c) && negb (is_dot c)) s.

(** A memoisation table is within its bound and has no key twice. *)
Definition table_ok {K V} (t : list (K * V)) : Prop :=
  (length t <= maxsize)%nat /\ NoDup (map fst t).

Definition tables_ok (w : world) : Prop :=
  table_ok (general_fields_cache w) /\
  table_ok (general_field_single_cache w) /\
  table_ok (tenor_tag_cache w) /\
  table_ok (ois_cache w).

(** A method sends nothing to the terminal; a method sends at most one
    request. *)
Definition silent {A} (m : M A) : Prop :=
  forall w, sent (snd (m w)) = sent w.

Definition at_most_one_request {A} (m : M A) : Prop :=
  forall w, sent (snd (m w)) = sent w \/
            exists req, sent (snd (m w)) = req :: sent w.

(* ===================================================================== *)
(** * Properties of the Python fragment *)
(* ===================================================================== *)

Lemma str_eqb_eq a b : str_eqb a b = true <-> a = b.
Proof.
  unfold str_eqb. destruct (list_eq_dec ascii_dec a b); split; congruence.
Qed.

Lemma str_eqb_refl a : str_eqb a a = true.
Proof. apply str_eqb_eq. reflexivity. Qed.

Lemma str_eqb_neq a b : str_eqb a b = false <-> a <> b.
Proof.
  unfold str_eqb. destruct (list_eq_dec ascii_dec a b); split; congruence.
Qed.

Lemma span_decimal_app s :
  fst (span_decimal s) ++ snd (span_decimal s) = s.
Proof.
  induction s as [|c s IH]; simpl; [reflexivity|].
  destruct (is_decimal c); [|reflexivity].
  destruct (span_decimal s) as [ds rest]; simpl in *. now rewrite IH.
Qed.

(** A match is never empty and splits the text it was found in. *)
Lemma match_here_some s m rest :
  match_here s = Some (m, rest) -> m <> [] /\ s = m ++ rest.
Proof.
  unfold match_here.
  pose proof (span_decimal_app s) as Hs.
  destruct (span_decimal s) as [ds r]; simpl in Hs.
  assert (Halt2 : match ds with [] => None | _ => Some (ds, r) end = Some (m, rest) ->
                  m <> [] /\ s = m ++ rest).
  { destruct ds; [discriminate|]. intros [= <- <-]. split; [discriminate|now symmetry]. }
  destruct r as [|c r']; [exact Halt2|].
  destruct (is_dot c); [|exact Halt2].
  pose proof (span_decimal_app r') as Hr.
  destruct (span_decimal r') as [fs r'']; simpl in Hr.
  destruct fs as [|f fs]; [exact Halt2|].
  intros [= <- <-]. split.
  - destruct ds; discriminate.
  - rewrite <- Hs, <- Hr, <- app_assoc. reflexivity.
Qed.

Lemma search_some s : forall pre m rest,
  search s = Some (pre, m, rest) -> m <> [] /\ s = pre ++ m ++ rest.
Proof.
  induction s as [|c s IH]; intros pre m rest; simpl.
  - discriminate.
  - destruct (match_here (c :: s)) as [[m0 r0]|] eqn:E.
    + intros [= <- <- <-]. simpl. now apply match_here_some.
    + destruct (search s) as [[[p1 m1] r1]|] eqn:Es; [|discriminate].
      intros [= <- <- <-]. destruct (IH _ _ _ eq_refl) as [Hm ->].
      split; [assumption|reflexivity].
Qed.

(** The defining equation of [re_split]. *)
Lemma re_split_eq s :
  re_split s = match search s with
               | None => [s]
               | Some (pre, m, rest) => pre :: m :: re_split rest
               end.
Proof.
  rewrite re_split_equation_1. unfold inspect.
  assert (Hcl : forall o (e : search s = o),
             re_split_unfold_clause_1 (s:=s) (exist _ o e) =
             match o with
             | None => [s]
             | Some (pre, m, rest) => pre :: m :: re_split rest
             end).
  { intros [[[pre m] rest]|] e; reflexivity. }
  apply Hcl.
Qed.

(** Joining the pieces of a split gives the text back. *)
Lemma re_split_join s : join (re_split s) = s.
Proof.
  remember (length s) as n eqn:Hn. revert s Hn.
  induction n as [n IH] using lt_wf_ind. intros s Hn.
  rewrite re_split_eq.
  destruct (search s) as [[[pre m] rest]|] eqn:E.
  - destruct (search_some E) as [Hm Hs].
    unfold join in *. simpl. rewrite (IH (length rest)); [now symmetry| |reflexivity].
    subst n s. rewrite !length_app. destruct m; [congruence|simpl; lia].
  - unfold join. simpl. apply app_nil_r.
Qed.

Lemma remove_contains x l :
  contains x l = true ->
  exists l', remove x l = Return l' /\ length l = S (length l') /\
             (x = [] -> join l' = join l).
Proof.
  unfold contains, join. induction l as [|y l IH]; simpl; [discriminate|].
  destruct (str_eqb y x) eqn:Eyx.
  - intros _. exists l. repeat split. intros ->.
    apply str_eqb_eq in Eyx. now subst y.
  - destruct (str_eqb x y) eqn:Exy.
    + apply str_eqb_eq in Exy. subst y. now rewrite str_eqb_refl in Eyx.
    + simpl. intros H. destruct (IH H) as (l' & -> & Hlen & Hj).
      exists (y :: l'). simpl. repeat split; [lia|].
      intros Hx. now rewrite (Hj Hx).
Qed.

(** [split_letters_numbers] always returns, and what it returns joins back
    to its argument. *)
Lemma split_letters_numbers_join str_in :
  exists parts, split_letters_numbers str_in = Return parts /\ join parts = str_in.
Proof.
  unfold split_letters_numbers.
  destruct (contains empty (re_split str_in)) eqn:E.
  - destruct (remove_contains E) as (l' & Hr & _ & Hj).
    exists l'. split; [exact Hr|]. rewrite (Hj eq_refl). apply re_split_join.
  - eexists. split; [reflexivity|apply re_split_join].
Qed.

Lemma is_decimal_not_space c : is_decimal c = true -> isspace_char c = false.
Proof.
  unfold is_decimal, isspace_char, between.
  intros H. apply andb_prop in H as [H1 H2].
  apply Nat.leb_le in H1, H2.
  repeat match goal with
         | |- context [(?a <=? ?b)%nat] => destruct (Nat.leb_spec a b)
         | |- context [(?a =? ?b)%nat] => destruct (Nat.eqb_spec a b)
         end; simpl; try reflexivity; lia.
Qed.

Lemma lstrip_decimal s :
  match s with c :: _ => is_decimal c = true | [] => True end -> lstrip s = s.
Proof.
  destruct s as [|c s]; [reflexivity|]. simpl. intros H.
  now rewrite (is_decimal_not_space H).
Qed.

(** A run of digits has nothing to strip. *)
Lemma strip_decimal ds : forallb is_decimal ds = true -> strip ds = ds.
Proof.
  intros H. unfold strip.
  rewrite (@lstrip_decimal ds).
  2:{ destruct ds; [exact I|]. simpl in H. now apply andb_prop in H. }
  rewrite lstrip_decimal; [apply rev_involutive|].
  destruct (rev ds) as [|c t] eqn:E; [exact I|].
  rewrite forallb_forall in H. apply H, in_rev. rewrite E. now left.
Qed.

Lemma int_body_decimal ds : forall prev acc,
  forallb is_decimal ds = true ->
  (ds <> [] \/ prev = true) ->
  int_body prev acc ds = Some (fold_left (fun a c => 10 * a + digit_value c)%Z ds acc).
Proof.
  induction ds as [|c ds IH]; intros prev acc Hall Hne; simpl.
  - destruct Hne as [Hne | ->]; [congruence|reflexivity].
  - simpl in Hall. apply andb_prop in Hall as [Hc Hds].
    rewrite Hc. apply IH; [assumption|now right].
Qed.

(** [int(ds)] on a non-empty run of digits is its decimal value. *)
Lemma int_decimal ds :
  ds <> [] -> forallb is_decimal ds = true -> int ds = Return (digits_value ds).
Proof.
  intros Hne Hall. unfold int. rewrite (strip_decimal Hall).
  destruct ds as [|c t]; [congruence|].
  assert (Hc : is_decimal c = true) by (simpl in Hall; now apply andb_prop in Hall).
  assert (H45 : (ord c =? 45)%nat = false /\ (ord c =? 43)%nat = false).
  { unfold is_decimal, between in Hc. apply andb_prop in Hc as [H1 _].
    apply Nat.leb_le in H1. split; apply Nat.eqb_neq; lia. }
  destruct H45 as [-> ->].
  rewrite (@int_body_decimal (c :: t) false 0%Z Hall); [reflexivity|left; discriminate].
Qed.

Lemma span_decimal_run ds rest :
  forallb is_decimal ds = true ->
  match rest with c :: _ => is_decimal c = false | [] => True end ->
  span_decimal (ds ++ rest) = (ds, rest).
Proof.
  intros Hds Hrest. induction ds as [|d ds IH]; simpl.
  - destruct rest as [|c rest]; [reflexivity|]. simpl. now rewrite Hrest.
  - simpl in Hds. apply andb_prop in Hds as [-> Hds]. now rewrite (IH Hds).
Qed.

(** A run of digits followed by one character that is not a digit splits
    into an empty piece, the run and the character. *)
Lemma re_split_digits_letter ds u :
  ds <> [] -> forallb is_decimal ds = true -> is_decimal u = false ->
  re_split (ds ++ [u]) = [[]; ds; [u]].
Proof.
  intros Hne Hds Hu.
  assert (Hsearch : search (ds ++ [u]) = Some ([], ds, [u])).
  { assert (Hm : match_here (ds ++ [u]) = Some (ds, [u])).
    { unfold match_here. rewrite (span_decimal_run (rest:=[u]) Hds Hu).
      destruct ds; [congruence|]. destruct (is_dot u); reflexivity. }
    destruct ds as [|d ds]; [congruence|]. simpl app in *. simpl search.
    now rewrite Hm. }
  assert (Hnone : search [u] = None).
  { simpl. unfold match_here. simpl. rewrite Hu. destruct (is_dot u); reflexivity. }
  rewrite re_split_eq, Hsearch, re_split_eq, Hnone. reflexivity.
Qed.

(* ===================================================================== *)
(** * The helpers *)
(* ===================================================================== *)

Example insert_year_CLZ9 :
  insert_year_into_ticker "CLZ9 Comdty" "2019" = Return ("CLZ19 Comdty" : str).
Proof. reflexivity. Qed.

(** A ticker that ends in its digits splits into two pieces only. *)
Example insert_year_CLZ9_bare :
  insert_year_into_ticker "CLZ9" "2019"
  = Raise (IOError "the ticker passed in needs to conform to bbg standards.").
Proof. reflexivity. Qed.


(* ===================================================================== *)
(** * Memoisation *)
(* ===================================================================== *)

Lemma removelast_incl {A} (l : list A) : incl (removelast l) l.
Proof.
  induction l as [|a l IH]; [easy|].
  destruct l as [|b l]; [easy|].
  change (removelast (a :: b :: l)) with (a :: removelast (b :: l)).
  intros x [->|Hx]; [now left|right; now apply IH].
Qed.

Section LruFacts.
Context {K V W : Type}.
Variable key_eqb : K -> K -> bool.
Variable cache : W -> list (K * V).
Variable set_cache : list (K * V) -> W -> W.
Variable user_function : K -> W -> result V * W.

Hypothesis key_eqb_spec : forall a b, key_eqb a b = true <-> a = b.
Hypothesis cache_set : forall t w, cache (set_cache t w) = t.

Local Abbreviation get := (cache_get (V:=V) key_eqb).
Local Abbreviation del := (cache_del (V:=V) key_eqb).
Local Abbreviation cached := (lru_cache key_eqb cache set_cache user_function).

Lemma cache_get_In k (t : list (K * V)) v : get k t = Some v -> In (k, v) t.
Proof.
  induction t as [|[k' v'] t IH]; simpl; [discriminate|].
  destruct (key_eqb k k') eqn:E.
  - apply key_eqb_spec in E as <-. intros [= ->]. now left.
  - intros H. right. now apply IH.
Qed.

Lemma cache_get_head k v (t : list (K * V)) : get k ((k, v) :: t) = Some v.
Proof.
  simpl. now rewrite (proj2 (key_eqb_spec k k) eq_refl).
Qed.

Lemma cache_del_incl k (t : list (K * V)) : incl (del k t) t.
Proof.
  induction t as [|[k' v'] t IH]; simpl; [easy|].
  destruct (key_eqb k k').
  - intros x Hx. now right.
  - intros x [<-|Hx]; [now left|right; now apply IH].
Qed.

(** A hit answers from the table and does not run the function. *)
Lemma lru_cache_hit k w v :
  get k (cache w) = Some v ->
  cached k w = (Return v, set_cache ((k, v) :: del k (cache w)) w).
Proof. unfold lru_cache. now intros ->. Qed.

(** An exception is not stored. *)
Lemma lru_cache_miss_raise k w e w' :
  get k (cache w) = None -> user_function k w = (Raise e, w') ->
  cached k w = (Raise e, w').
Proof. unfold lru_cache. now intros -> ->. Qed.

(** The value of a call is the function's, or was in the table. *)
Lemma lru_cache_value k w :
  fst (cached k w) = fst (user_function k w) \/
  exists v, In (k, v) (cache w) /\ fst (cached k w) = Return v.
Proof.
  unfold lru_cache. destruct (get k (cache w)) as [v|] eqn:E.
  - right. exists v. split; [now apply cache_get_In|reflexivity].
  - left. destruct (user_function k w) as [[v|e] w']; cbv zeta; cbn [fst];
      [|reflexivity].
    destruct (get k (cache w')); [reflexivity|].
    destruct (maxsize <=? length (cache w'))%nat; reflexivity.
Qed.

(** What is in the table after a call was there before, or was there
    after the function ran, or is the value the function just
    returned. *)
Lemma lru_cache_entries k w x :
  In x (cache (snd (cached k w))) ->
  In x (cache w) \/ In x (cache (snd (user_function k w))) \/
  exists v, x = (k, v) /\ fst (user_function k w) = Return v.
Proof.
  unfold lru_cache. destruct (get k (cache w)) as [v|] eqn:E.
  - simpl. rewrite cache_set. intros [<-|Hx].
    + left. now apply cache_get_In.
    + left. now apply (cache_del_incl Hx).
  - destruct (user_function k w) as [[v|e] w']; cbv zeta; cbn [fst snd];
      [|now right; left].
    destruct (get k (cache w')); [now right; left|].
    destruct (maxsize <=? length (cache w'))%nat; cbn [snd]; rewrite cache_set;
      (intros [<-|Hx]; [right; right; now exists v|right; left]);
      [now apply removelast_incl|assumption].
Qed.

(** When the function leaves the state alone, a call changes the table
    and nothing else. *)
Lemma lru_cache_pure_state k w :
  (forall w0, set_cache (cache w0) w0 = w0) ->
  snd (user_function k w) = w ->
  exists t, snd (cached k w) = set_cache t w.
Proof.
  intros Hid Hpure. unfold lru_cache.
  destruct (get k (cache w)) as [v|]; [eexists; reflexivity|].
  destruct (user_function k w) as [[v|e] w']; cbv zeta; cbn [snd] in *; subst w'.
  - destruct (get k (cache w)); [exists (cache w); now rewrite Hid|].
    destruct (maxsize <=? length (cache w))%nat; eexists; reflexivity.
  - exists (cache w). now rewrite Hid.
Qed.

End LruFacts.

(** ** The table of [convert_bbg_tenor_tag] *)

Lemma str_eqb_spec a b : str_eqb a b = true <-> a = b.
Proof. apply str_eqb_eq. Qed.

Lemma tenor_cache_set t w : tenor_tag_cache (set_tenor_tag_cache t w) = t.
Proof. reflexivity. Qed.

Lemma new_world_tenor_sound d : tenor_cache_sound (new_world d).
Proof. intros tag x []. Qed.

(** In a state whose table is sound, the memoised method returns what its
    body returns, and leaves a sound table and nothing else changed. *)
Lemma convert_bbg_tenor_tag_sound tag w :
  tenor_cache_sound w ->
  fst (convert_bbg_tenor_tag tag w) = convert_bbg_tenor_tag__wrapped tag /\
  exists t, snd (convert_bbg_tenor_tag tag w) = set_tenor_tag_cache t w /\
            tenor_cache_sound (set_tenor_tag_cache t w).
Proof.
  intros Hsound. unfold convert_bbg_tenor_tag.
  set (body := fun s : str => lift (convert_bbg_tenor_tag__wrapped s)).
  split.
  - destruct (lru_cache_value tenor_tag_cache set_tenor_tag_cache body
                str_eqb_spec tag w) as [H|(v & Hin & H)].
    + exact H.
    + rewrite H. symmetry. now apply Hsound.
  - destruct (@lru_cache_pure_state _ _ _ str_eqb tenor_tag_cache
                set_tenor_tag_cache body tag w) as [t Ht].
    + now intros [].
    + reflexivity.
    + exists t. split; [exact Ht|].
      intros tag' x Hin. rewrite <- Ht in Hin.
      apply (lru_cache_entries str_eqb_spec tenor_cache_set) in Hin.
      destruct Hin as [Hin|[Hin|(v & [= -> ->] & Hv)]].
      * now apply Hsound.
      * now apply Hsound.
      * exact Hv.
Qed.

(* ===================================================================== *)
(** * Tenor labels *)
(* ===================================================================== *)

Lemma split_letters_numbers_digits_letter ds u :
  ds <> [] -> forallb is_decimal ds = true -> is_decimal u = false ->
  split_letters_numbers (ds ++ [u]) = Return [ds; [u]].
Proof.
  intros Hne Hds Hu. unfold split_letters_numbers.
  rewrite (re_split_digits_letter Hne Hds Hu). reflexivity.
Qed.

Lemma unit_factor_cases u mult :
  unit_factor u = Some mult ->
  In u ["D"; "d"; "W"; "w"; "M"; "m"; "Y"; "y"]%char.
Proof.
  destruct u as [[] [] [] [] [] [] [] []]; simpl; try discriminate; intros _; tauto.
Qed.

(** The body of [convert_bbg_tenor_tag] on a whole number followed by a
    unit letter. *)
Lemma convert_bbg_tenor_tag__wrapped_integer ds u mult :
  ds <> [] -> forallb is_decimal ds = true -> unit_factor u = Some mult ->
  convert_bbg_tenor_tag__wrapped (ds ++ [u]) = mul_int (digits_value ds) mult.
Proof.
  intros Hne Hds Hu. unfold convert_bbg_tenor_tag__wrapped.
  assert (Hdec : is_decimal u = false).
  { pose proof (unit_factor_cases Hu) as Hin. simpl in Hin.
    repeat (destruct Hin as [<-|Hin]; [reflexivity|]). destruct Hin. }
  rewrite (split_letters_numbers_digits_letter Hne Hds Hdec).
  cbn [bind unpack2]. rewrite (int_decimal Hne Hds). cbn [bind].
  pose proof (unit_factor_cases Hu) as Hin. simpl in Hin.
  repeat (destruct Hin as [<-|Hin];
          [injection Hu as <-; reflexivity|]).
  destruct Hin.
Qed.

Example tenor_1D :
  convert_bbg_tenor_tag__wrapped "1D" = Return (PyFloat (true_div 1 365)).
Proof. reflexivity. Qed.

(** [3 * (1/12)] rounds to 2^52 * 2^-54, that is 0.25. *)
Example tenor_3M :
  convert_bbg_tenor_tag__wrapped "3M"
  = Return (PyFloat (S754_finite false 4503599627370496 (-54))).
Proof. reflexivity. Qed.

(** For years the factor is the integer one and so is the product. *)
Example tenor_4Y : convert_bbg_tenor_tag__wrapped "4Y" = Return (PyInt 4).
Proof. reflexivity. Qed.

(** C1, as the source has it.  For a label made of a non-empty run of
    decimal digits and one unit letter among D, W, M, Y in either case,
    [convert_bbg_tenor_tag] returns the product of the magnitude, read as
    an integer, and the factor of the unit: 1/365, 1/52 and 1/12 as
    floats, so that the magnitude is converted and the product rounded,
    and the integer 1 for years. *)
Theorem convert_bbg_tenor_tag_integer_label w ds u mult :
  tenor_cache_sound w ->
  ds <> [] -> forallb is_decimal ds = true ->
  unit_factor u = Some mult ->
  fst (convert_bbg_tenor_tag (ds ++ [u]) w) = mul_int (digits_value ds) mult.
Proof.
  intros Hw Hne Hds Hu.
  destruct (convert_bbg_tenor_tag_sound (ds ++ [u]) Hw) as [-> _].
  now apply convert_bbg_tenor_tag__wrapped_integer.
Qed.

Lemma convert_bbg_tenor_tag_integer_label_witness :
  fst (convert_bbg_tenor_tag "3M" (new_world offline))
  = Return (PyFloat (S754_finite false 4503599627370496 (-54))).
Proof.
  apply (@convert_bbg_tenor_tag_integer_label
           (new_world offline) ["3"%char] "M"%char (PyFloat (true_div 1 12))).
  - apply new_world_tenor_sound.
  - discriminate.
  - reflexivity.
  - reflexivity.
Defined.

(** C1, as stated, fails on a decimal magnitude: the splitter keeps "2.5"
    in one piece and [int] refuses it. *)
Lemma convert_bbg_tenor_tag_decimal_label :
  fst (convert_bbg_tenor_tag "2.5M" (new_world offline))
  = Raise (ValueError "invalid literal for int() with base 10: 2.5") /\
  split_letters_numbers "2.5M" = Return ["2.5" : str; "M" : str].
Proof. split; reflexivity. Qed.

(** C3.  The labels "abc" and "Q" have no number: the split has one piece
    and the unpacking fails.  The label "5" has no letter: the empty
    string is no unit.  Each call raises. *)
Theorem convert_bbg_tenor_tag_malformed w :
  tenor_cache_sound w ->
  fst (convert_bbg_tenor_tag "abc" w)
  = Raise (ValueError "not enough values to unpack (expected 2)") /\
  fst (convert_bbg_tenor_tag "5" w)
  = Raise (TypeError "cannot find appropriate letter for tenor") /\
  fst (convert_bbg_tenor_tag "Q" w)
  = Raise (ValueError "not enough values to unpack (expected 2)").
Proof.
  intros Hw.
  destruct (convert_bbg_tenor_tag_sound "abc" Hw) as [-> _].
  destruct (convert_bbg_tenor_tag_sound "5" Hw) as [-> _].
  destruct (convert_bbg_tenor_tag_sound "Q" Hw) as [-> _].
  repeat split.
Qed.

Lemma convert_bbg_tenor_tag_malformed_witness :
  fst (convert_bbg_tenor_tag "abc" (new_world offline))
  = Raise (ValueError "not enough values to unpack (expected 2)") /\
  fst (convert_bbg_tenor_tag "5" (new_world offline))
  = Raise (TypeError "cannot find appropriate letter for tenor") /\
  fst (convert_bbg_tenor_tag "Q" (new_world offline))
  = Raise (ValueError "not enough values to unpack (expected 2)").
Proof.
  apply (@convert_bbg_tenor_tag_malformed (new_world offline)).
  apply new_world_tenor_sound.
Defined.

(* ===================================================================== *)
(** * Floats and minima *)
(* ===================================================================== *)

(** Something is below [y] only if [y] is a number, and a number equals
    itself. *)
Lemma flt_feq_refl x y : flt x y = true -> feq y y = true.
Proof.
  unfold flt, feq, SFltb, SFeqb.
  destruct y as [s| s| |s m e].
  - reflexivity.
  - destruct s; reflexivity.
  - destruct x; discriminate.
  - intros _. simpl. destruct s; rewrite Z.compare_refl, Pos.compare_cont_refl;
      reflexivity.
Qed.

Lemma min_from_In l : forall m, In (min_from m l) (m :: l).
Proof.
  induction l as [|x l IH]; intros m; simpl; [now left|].
  destruct (IH (if flt x m then x else m)) as [H|H].
  - destruct (flt x m); rewrite <- H; [right; now left|now left].
  - right. now right.
Qed.

(** The minimum of a list is one of its elements. *)
Lemma min_In l m : min l = Return m -> exists i, nth_error l i = Some m.
Proof.
  destruct l as [|x l]; [discriminate|]. intros [= <-].
  apply In_nth_error, min_from_In.
Qed.

(** A mask that holds at one position selects the cell at that position. *)
Lemma select_single {A} (p : float -> bool) (cells : list A) :
  forall (tenors : list float) i a c,
  length cells = length tenors ->
  nth_error tenors i = Some a -> nth_error cells i = Some c ->
  p a = true ->
  (forall j b, j <> i -> nth_error tenors j = Some b -> p b = false) ->
  select (map p tenors) cells = [c].
Proof.
  induction cells as [|c0 cells IH]; intros tenors i a c Hlen Ha Hc Hp Hothers.
  - destruct i; discriminate.
  - destruct tenors as [|t tenors]; [discriminate|]. simpl in Hlen.
    destruct i as [|i]; simpl in Ha, Hc.
    + injection Ha as ->. injection Hc as ->. simpl. rewrite Hp. f_equal.
      clear IH Hp. revert cells Hlen Hothers.
      induction tenors as [|t tenors IHt]; intros cells Hlen Hothers.
      * now destruct cells.
      * destruct cells as [|c1 cells]; [discriminate|]. simpl.
        rewrite (Hothers 1%nat t); [|discriminate|reflexivity].
        apply IHt; [simpl in Hlen; lia|].
        intros [|j] b Hj Hb; [congruence|].
        apply (Hothers (S (S j)) b); [discriminate|exact Hb].
    + simpl. rewrite (Hothers 0%nat t); [|discriminate|reflexivity].
      apply (IH tenors i a c); [lia|assumption|assumption|assumption|].
      intros j b Hj Hb. apply (Hothers (S j) b); [congruence|exact Hb].
Qed.

Lemma all_distinct_unique tenors :
  all_distinct tenors = true -> unique_by_tenor tenors.
Proof.
  induction tenors as [|t tenors IH]; intros H i j a b Hij Ha Hb.
  - destruct i; discriminate.
  - simpl in H. apply andb_prop in H as [Hhead Htail].
    rewrite forallb_forall in Hhead.
    destruct i as [|i], j as [|j]; simpl in Ha, Hb.
    + congruence.
    + injection Ha as ->. apply nth_error_In in Hb.
      specialize (Hhead _ Hb). apply andb_prop in Hhead as [H1 _].
      now apply negb_true_iff in H1.
    + injection Hb as ->. apply nth_error_In in Ha.
      specialize (Hhead _ Ha). apply andb_prop in Hhead as [_ H2].
      now apply negb_true_iff in H2.
    + apply (IH Htail i j); congruence.
Qed.

Lemma eqb_of_spec {A} (dec : forall a b : A, {a = b} + {a <> b}) a b :
  eqb_of dec a b = true <-> a = b.
Proof. unfold eqb_of. destruct (dec a b); split; congruence. Qed.

(** On a miss the value of the call is the value of the function. *)
Lemma lru_cache_miss_value {K V W} (key_eqb : K -> K -> bool)
      (cache : W -> list (K * V)) set_cache user_function k w :
  cache_get key_eqb k (cache w) = None ->
  fst (lru_cache key_eqb cache set_cache user_function k w)
  = fst (user_function k w).
Proof.
  unfold lru_cache. intros ->.
  destruct (user_function k w) as [[v|e] w']; cbv zeta; cbn [fst]; [|reflexivity].
  destruct (cache_get key_eqb k (cache w')); [reflexivity|].
  destruct (maxsize <=? length (cache w'))%nat; reflexivity.
Qed.

(* ===================================================================== *)
(** * The OIS curve *)
(* ===================================================================== *)

Section OIS.

Variable strftime_Ymd : datetime -> str.
Variable interp1d_cubic : list float -> list value -> float -> result float.

Local Abbreviation get_ois_curve' := (get_ois_curve strftime_Ymd).
Local Abbreviation get_ois_body := (get_ois__wrapped strftime_Ymd interp1d_cubic).
Local Abbreviation get_ois' := (get_ois strftime_Ymd interp1d_cubic).
Local Abbreviation cached_ois := (cache_get (eqb_of ois_key_eq_dec)).

Lemma str_curve_of_unsupported str_currency :
  ~ In (lower str_currency) ["usd" : str; "eur" : str; "gbp" : str; "cad" : str] ->
  str_curve_of str_currency = None.
Proof.
  intros H. unfold str_curve_of.
  repeat match goal with
         | |- context [str_eqb ?a ?b] =>
             let E := fresh "E" in
             destruct (str_eqb a b) eqn:E;
             [apply str_eqb_eq in E; exfalso; apply H; rewrite E; simpl; auto 10|]
         end.
  reflexivity.
Qed.

(** Without a curve for the currency the body stops at the read of
    [str_curve], in any state and before anything is sent. *)
Lemma get_ois__wrapped_unbound date tgt_tenor str_currency num_side w :
  str_curve_of str_currency = None ->
  get_ois_body (date, tgt_tenor, str_currency, num_side) w
  = (Raise (UnboundLocalError "str_curve"), w).
Proof.
  intros H. unfold get_ois__wrapped, get_ois_curve. rewrite H. reflexivity.
Qed.

(** C5.  For a currency that is none of usd, eur, gbp, cad in any case,
    [get_ois] raises the error of an unbound local variable, and the
    state is as it was: nothing was sent to the terminal and nothing
    stored. *)
Theorem get_ois_unsupported_currency w date tgt_tenor str_currency num_side :
  ois_cache_sound strftime_Ymd interp1d_cubic w ->
  ~ In (lower str_currency) ["usd" : str; "eur" : str; "gbp" : str; "cad" : str] ->
  get_ois' (date, tgt_tenor, str_currency, num_side) w
  = (Raise (UnboundLocalError "str_curve"), w).
Proof.
  intros Hsound Hcur.
  pose proof (str_curve_of_unsupported Hcur) as Hnone.
  unfold get_ois. apply lru_cache_miss_raise.
  - destruct (cached_ois (date, tgt_tenor, str_currency, num_side) (ois_cache w))
      as [x|] eqn:E; [|reflexivity].
    apply (cache_get_In (eqb_of_spec ois_key_eq_dec)) in E.
    destruct (Hsound _ _ E) as [w0 Hw0].
    rewrite (get_ois__wrapped_unbound date tgt_tenor num_side w0 Hnone) in Hw0.
    discriminate.
  - now apply get_ois__wrapped_unbound.
Qed.

(** The body of [get_ois] once the curve is there. *)
Lemma get_ois__wrapped_rate date tgt_tenor str_currency num_side w tenors curve :
  fst (get_ois_curve' date str_currency w) = Return (tenors, curve) ->
  fst (get_ois_body (date, tgt_tenor, str_currency, num_side) w)
  = let* ret_rate := get_ois_rate interp1d_cubic tgt_tenor num_side tenors curve in
    Return (ret_rate, curve).
Proof.
  intros H. unfold get_ois__wrapped, bindM.
  destruct (get_ois_curve' date str_currency w) as [[[ts c]|e] w'];
    simpl in H; [|discriminate].
  injection H as -> ->. unfold lift.
  destruct (get_ois_rate interp1d_cubic tgt_tenor num_side tenors curve); reflexivity.
Qed.



End OIS.

Lemma new_world_ois_sound strftime_Ymd interp1d_cubic d :
  ois_cache_sound strftime_Ymd interp1d_cubic (new_world d).
Proof. intros args x []. Qed.

Lemma get_ois_unsupported_currency_witness :
  get_ois strftime_Ymd_4 interp1d_min4
    (DateObj (Datetime 2019 5 2), true_div 1 12, "JPY" : str, "mid" : str)
    (new_world offline)
  = (Raise (UnboundLocalError "str_curve"), new_world offline).
Proof.
  apply (@get_ois_unsupported_currency strftime_Ymd_4 interp1d_min4).
  - apply new_world_ois_sound.
  - vm_compute. intros H. decompose [or] H; discriminate || assumption.
Defined.


Example get_ois_example :
  fst (get_ois strftime_Ymd_4 interp1d_min4
         (DateStr "20190502", true_div 1 2, "usd" : str, "mid" : str)
         (new_world (terminal_with_curve example_curve)))
  = Return (round_Z 1,
            DataFrame ["1Y" : str; "2Y" : str; "3Y" : str; "6Y" : str]
              [("tenor" : str,
                rate_cells [round_Z 1; round_Z 2; round_Z 3; round_Z 6]);
               ("mid" : str,
                rate_cells [round_Z 1; true_div 12 10; true_div 13 10;
                            true_div 3 2])]).
Proof. vm_compute. reflexivity. Qed.



(* ===================================================================== *)
(** * Tables *)
(* ===================================================================== *)

Lemma assoc_set_same {A} k (a : A) d : assoc k (assoc_set k a d) = Some a.
Proof.
  induction d as [|[k' a'] d IH]; simpl.
  - now rewrite str_eqb_refl.
  - destruct (str_eqb k k') eqn:E; simpl; [now rewrite str_eqb_refl|now rewrite E].
Qed.

Lemma assoc_set_other {A} k k' (a : A) d :
  k <> k' -> assoc k (assoc_set k' a d) = assoc k d.
Proof.
  intros Hne. induction d as [|[k0 a0] d IH]; simpl.
  - destruct (str_eqb k k') eqn:E; [apply str_eqb_eq in E; congruence|reflexivity].
  - destruct (str_eqb k' k0) eqn:E; simpl.
    + apply str_eqb_eq in E. subst k0.
      destruct (str_eqb k k') eqn:E'; [apply str_eqb_eq in E'; congruence|reflexivity].
    + destruct (str_eqb k k0); [reflexivity|exact IH].
Qed.

Lemma column_set_column_same name cells f :
  column name (set_column name cells f) = Return cells.
Proof. unfold column, set_column. simpl. now rewrite assoc_set_same. Qed.

Lemma column_set_column_other name name' cells f :
  name <> name' -> column name (set_column name' cells f) = column name f.
Proof.
  intros H. unfold column, set_column. simpl. now rewrite (assoc_set_other _ _ H).
Qed.

Lemma has_column_column name f :
  has_column name f = true -> exists cells, column name f = Return cells.
Proof.
  unfold has_column, column. destruct (assoc name (columns f)) as [c|];
    [now exists c|discriminate].
Qed.

Lemma traverse_total {A B} (f : A -> result B) xs :
  Forall (fun x => exists y, f x = Return y) xs ->
  exists ys, traverse f xs = Return ys.
Proof.
  induction 1 as [|x xs [y Hy] _ [ys Hys]]; simpl.
  - now exists [].
  - rewrite Hy. simpl. rewrite Hys. simpl. now exists (y :: ys).
Qed.

Lemma traverse_strip_comb ss :
  traverse strip_comb (map VStr ss)
  = Return (map (fun s => VStr (replace " COMB" empty s)) ss).
Proof.
  induction ss as [|s ss IH]; [reflexivity|].
  simpl map. simpl traverse. rewrite IH. reflexivity.
Qed.

(* ===================================================================== *)
(** * Reference data *)
(* ===================================================================== *)

Example strip_CLZ9 :
  replace " COMB" empty "CLZ9 COMB Comdty" = ("CLZ9 Comdty" : str).
Proof. reflexivity. Qed.

Section ReferenceData.

Variable strptime_b_y : str -> result datetime.

Local Abbreviation get_option_fields' := (get_option_fields strptime_b_y).
Local Abbreviation cached_single :=
  (cache_get (eqb_of general_field_single_key_eq_dec)).

(** C4.  When the last word of the ticker (of the first ticker of a
    chain) is neither "equity" nor "comdty" in any case,
    [get_option_fields] raises [TypeError] and leaves the state as it
    was: nothing was sent to the terminal. *)
Theorem get_option_fields_unsupported_type str_ticker str_type w :
  security_type str_ticker = Return str_type ->
  lower str_type <> ("equity" : str) ->
  lower str_type <> ("comdty" : str) ->
  get_option_fields' str_ticker w
  = (Raise (TypeError (str_type ++ " is not currently implemented.")), w).
Proof.
  intros Hty He Hc. unfold get_option_fields, bindM, lift.
  rewrite Hty. unfold option_dict_fields.
  apply str_eqb_neq in He, Hc. rewrite He, Hc. reflexivity.
Qed.

Lemma get_option_fields_strips str_ticker str_type dict_fields w d tickers :
  security_type str_ticker = Return str_type ->
  option_dict_fields str_type = Return dict_fields ->
  dm w (Request str_ticker (Fields (keys dict_fields)) None None []) = Return d ->
  column "underlying_ticker" (rename dict_fields d) = Return (map VStr tickers) ->
  (forall cells,
      column "cont_month_year" (rename dict_fields d) = Return cells ->
      Forall (fun x => exists t, contract_date strptime_b_y x = Return t) cells) ->
  exists option_ret,
    fst (get_option_fields' str_ticker w) = Return option_ret /\
    column "underlying_ticker" option_ret
    = Return (map (fun s => VStr (replace " COMB" empty s)) tickers).
Proof.
  intros Hty Hdict Hdm Hcol Hdates.
  unfold get_option_fields, bindM, lift, get_reference_data.
  rewrite Hty, Hdict, Hdm.
  set (f1 := rename dict_fields d) in *.
  destruct (has_column "cont_month_year" f1) eqn:Hhas.
  - destruct (has_column_column Hhas) as [cells Hcells].
    specialize (Hdates cells Hcells).
    rewrite Hcells.
    destruct (@traverse_total _ _
                (fun x => let* t := contract_date strptime_b_y x in
                          Return (VNum (PyInt (month t)))) cells) as [months Hm].
    { eapply Forall_impl; [|exact Hdates]. intros x [t Ht]. rewrite Ht.
      eexists. reflexivity. }
    rewrite Hm.
    rewrite column_set_column_other by discriminate. rewrite Hcells.
    destruct (@traverse_total _ _
                (fun x => let* t := contract_date strptime_b_y x in
                          Return (VNum (PyInt (year t)))) cells) as [years Hy].
    { eapply Forall_impl; [|exact Hdates]. intros x [t Ht]. rewrite Ht.
      eexists. reflexivity. }
    rewrite Hy. unfold ret.
    rewrite !column_set_column_other by discriminate.
    rewrite Hcol, traverse_strip_comb.
    eexists. split; [reflexivity|]. apply column_set_column_same.
  - unfold ret. rewrite Hcol, traverse_strip_comb.
    eexists. split; [reflexivity|]. apply column_set_column_same.
Qed.

Lemma get_general_field_single_strips w str_ticker str_field d s :
  cached_single (str_ticker, str_field) (general_field_single_cache w) = None ->
  lower str_field = ("underlying_security_des" : str) ->
  dm w (Request (One str_ticker) (Field str_field) None None []) = Return d ->
  iloc_0_0 d = Return (VStr s) ->
  fst (get_general_field_single (str_ticker, str_field) w)
  = Return (VStr (replace " COMB" empty s)).
Proof.
  intros Hmiss Hfield Hdm Hcell.
  unfold get_general_field_single. rewrite (lru_cache_miss_value _ _ Hmiss).
  unfold get_general_field_single__wrapped, bindM, lift, get_reference_data.
  rewrite Hdm, Hcell, Hfield. reflexivity.
Qed.

(** C7.  Both look-ups pass the underlying ticker through
    [x.replace(' COMB', '')], which drops the occurrences of " COMB"
    found from left to right: the single-field look-up when the field
    is underlying_security_des in any case and the call is not answered
    from the table, the option-field look-up on every cell of the
    column underlying_ticker.  "CLZ9 COMB Comdty" becomes
    "CLZ9 Comdty". *)
Theorem comb_is_stripped :
  (forall w str_ticker str_field d s,
      cached_single (str_ticker, str_field) (general_field_single_cache w) = None ->
      lower str_field = ("underlying_security_des" : str) ->
      dm w (Request (One str_ticker) (Field str_field) None None []) = Return d ->
      iloc_0_0 d = Return (VStr s) ->
      fst (get_general_field_single (str_ticker, str_field) w)
      = Return (VStr (replace " COMB" empty s))) /\
  (forall w str_ticker str_type dict_fields d tickers,
      security_type str_ticker = Return str_type ->
      option_dict_fields str_type = Return dict_fields ->
      dm w (Request str_ticker (Fields (keys dict_fields)) None None []) = Return d ->
      column "underlying_ticker" (rename dict_fields d) = Return (map VStr tickers) ->
      (forall cells,
          column "cont_month_year" (rename dict_fields d) = Return cells ->
          Forall (fun x => exists t, contract_date strptime_b_y x = Return t) cells) ->
      exists option_ret,
        fst (get_option_fields' str_ticker w) = Return option_ret /\
        column "underlying_ticker" option_ret
        = Return (map (fun s => VStr (replace " COMB" empty s)) tickers)) /\
  replace " COMB" empty "CLZ9 COMB Comdty" = ("CLZ9 Comdty" : str).
Proof.
  split; [|split].
  - intros. now apply get_general_field_single_strips with (d := d).
  - intros. now apply get_option_fields_strips
      with (str_type := str_type) (dict_fields := dict_fields) (d := d).
  - reflexivity.
Qed.


End ReferenceData.

Lemma get_option_fields_unsupported_type_witness :
  get_option_fields strptime_b_y_en (One "EURUSD Curncy") (new_world offline)
  = (Raise (TypeError "Curncy is not currently implemented."), new_world offline).
Proof.
  apply (@get_option_fields_unsupported_type strptime_b_y_en
           (One "EURUSD Curncy") "Curncy" (new_world offline)).
  - reflexivity.
  - discriminate.
  - discriminate.
Defined.

Lemma comb_is_stripped_witness :
  fst (get_general_field_single
         ("CLZ9C 60 Comdty" : str, "UNDERLYING_SECURITY_DES" : str)
         (new_world (terminal_with_table example_underlying_table)))
  = Return (VStr "CLZ9 Comdty") /\
  exists option_ret,
    fst (get_option_fields strptime_b_y_en (One "CLZ9C 60 Comdty")
           (new_world (terminal_with_table example_option_table)))
    = Return option_ret /\
    column "underlying_ticker" option_ret = Return [VStr "CLZ9 Comdty"].
Proof.
  destruct (comb_is_stripped strptime_b_y_en) as (Hsingle & Hoption & _).
  split.
  - apply (Hsingle (new_world (terminal_with_table example_underlying_table))
                   _ _ example_underlying_table "CLZ9 COMB Comdty");
      reflexivity.
  - eapply (Hoption (new_world (terminal_with_table example_option_table))
                    (One "CLZ9C 60 Comdty") "Comdty" _ example_option_table
                    ["CLZ9 COMB Comdty" : str]).
    + reflexivity.
    + reflexivity.
    + reflexivity.
    + reflexivity.
    + intros cells [= <-]. repeat constructor. eexists. reflexivity.
Defined.

(* ===================================================================== *)
(** * Memoised methods *)
(* ===================================================================== *)

Section Memoised.
Context {K V : Type}.
Variable key_eqb : K -> K -> bool.
Variable cache : world -> list (K * V).
Variable set_cache : list (K * V) -> world -> world.
Variable body : K -> M V.

Hypothesis key_eqb_spec : forall a b, key_eqb a b = true <-> a = b.
Hypothesis cache_set : forall t w, cache (set_cache t w) = t.
Hypothesis sent_set : forall t w, sent (set_cache t w) = sent w.
(** No method calls itself: a body leaves its own table alone. *)
Hypothesis body_frame : forall k w, cache (snd (body k w)) = cache w.

Local Abbreviation get := (cache_get (V:=V) key_eqb).
Local Abbreviation del := (cache_del (V:=V) key_eqb).
Local Abbreviation method := (lru_cache key_eqb cache set_cache body).
Local Abbreviation run' := (run key_eqb cache set_cache body).
Local Abbreviation within := (within_first (V:=V) key_eqb).

Lemma within_mono k v n m t : (n <= m)%nat -> within k v n t -> within k v m t.
Proof.
  unfold within_first. revert n m. induction t as [|[k0 v0] t IH]; intros n m Hle.
  - rewrite !firstn_nil. auto.
  - destruct n as [|n]; [discriminate|].
    destruct m as [|m]; [lia|]. simpl.
    destruct (key_eqb k k0); [auto|]. apply IH. lia.
Qed.

Lemma within_get k v n t : within k v n t -> get k t = Some v.
Proof.
  unfold within_first. revert n. induction t as [|[k0 v0] t IH]; intros n.
  - rewrite firstn_nil. auto.
  - destruct n as [|n]; [discriminate|]. simpl.
    destruct (key_eqb k k0); [auto|apply IH].
Qed.

Lemma within_del k k' v n t :
  key_eqb k k' = false -> within k v n t -> within k v n (del k' t).
Proof.
  intros Hkk'. unfold within_first. revert n.
  induction t as [|[k0 v0] t IH]; intros n; [auto|].
  destruct n as [|n]; [discriminate|].
  rewrite firstn_cons. cbn [cache_get cache_del].
  destruct (key_eqb k' k0) eqn:E0.
  - apply key_eqb_spec in E0. subst k0. rewrite Hkk'.
    apply (@within_mono k v n (S n)). lia.
  - rewrite firstn_cons. cbn [cache_get].
    destruct (key_eqb k k0); [auto|]. apply IH.
Qed.

(** After a call that returned [v], the entry of [k] is first. *)
Lemma within_after_call k w v :
  fst (method k w) = Return v -> within k v 1 (cache (snd (method k w))).
Proof.
  unfold lru_cache, within_first. destruct (get k (cache w)) as [v0|] eqn:E.
  - cbn [fst snd]. intros [= ->]. rewrite cache_set.
    apply (cache_get_head key_eqb_spec).
  - pose proof (body_frame k w) as Hframe.
    destruct (body k w) as [[v0|e] w']; cbv zeta; cbn [fst snd] in *;
      [|discriminate].
    rewrite Hframe, E.
    destruct (maxsize <=? length (cache w))%nat; cbn [fst snd];
      intros [= ->]; rewrite cache_set; apply (cache_get_head key_eqb_spec).
Qed.

(** One event moves the entry of [k] back by one place at most, and by
    none unless it is a call with other arguments. *)
Lemma within_step k v n w ev :
  quiet cache ev ->
  (1 <= n)%nat ->
  (n + (if is_other_call key_eqb k ev then 1 else 0) <= maxsize)%nat ->
  within k v n (cache w) ->
  within k v (n + (if is_other_call key_eqb k ev then 1 else 0))
         (cache (run_event key_eqb cache set_cache body w ev)).
Proof.
  intros Hq Hn Hmax Hin. destruct ev as [k'|g]; simpl in *.
  2:{ rewrite Hq, Nat.add_0_r. exact Hin. }
  destruct (key_eqb k k') eqn:Ekk'; simpl in *.
  - (* the same arguments: a hit, the entry moves to the front *)
    apply key_eqb_spec in Ekk'. subst k'. rewrite Nat.add_0_r.
    rewrite (lru_cache_hit set_cache body (within_get Hin)).
    cbn [snd]. rewrite cache_set. apply (@within_mono k v 1 n); [assumption|].
    unfold within_first. apply (cache_get_head key_eqb_spec).
  - (* other arguments *)
    replace (n + 1)%nat with (S n) in * by lia.
    unfold lru_cache. destruct (get k' (cache w)) as [v'|] eqn:E.
    + cbn [snd]. rewrite cache_set. unfold within_first. simpl. rewrite Ekk'.
      now apply within_del.
    + pose proof (body_frame k' w) as Hframe.
      destruct (body k' w) as [[v'|e] w']; cbv zeta; cbn [snd] in *.
      * rewrite Hframe, E.
        destruct (Nat.leb_spec maxsize (length (cache w))) as [Hfull|Hroom];
          cbn [snd]; rewrite cache_set; unfold within_first; simpl; rewrite Ekk'.
        -- rewrite firstn_removelast by lia. exact Hin.
        -- exact Hin.
      * rewrite Hframe. apply (@within_mono k v n (S n)); [lia|exact Hin].
Qed.

Lemma within_run k v es : forall n w,
  Forall (quiet cache) es ->
  (1 <= n)%nat ->
  (n + other_calls key_eqb k es <= maxsize)%nat ->
  within k v n (cache w) ->
  within k v (n + other_calls key_eqb k es) (cache (run' es w)).
Proof.
  unfold other_calls.
  induction es as [|ev es IH]; intros n w Hq Hn Hmax Hin; simpl in *.
  - now rewrite Nat.add_0_r.
  - inversion Hq as [|? ? Hev Hes]; subst.
    pose proof (@within_step k v n w ev Hev Hn) as Hstep.
    destruct (is_other_call key_eqb k ev); simpl in *.
    + replace (n + S (length (filter (is_other_call key_eqb k) es)))%nat
        with ((n + 1) + length (filter (is_other_call key_eqb k) es))%nat by lia.
      apply IH; [assumption|lia|lia|]. apply Hstep; [lia|assumption].
    + apply IH; [assumption|lia|lia|].
      rewrite <- (Nat.add_0_r n). apply Hstep; [lia|assumption].
Qed.

(** C8, as the source has it.  Let a call of a memoised method return
    [v].  Whatever happens next, the data of the terminal changing
    included, as long as the method is called fewer than [maxsize] = 128
    times with other arguments, the next call with the same arguments
    is a hit: it returns [v], sends nothing to the terminal and changes
    nothing but the order of the table. *)
Theorem second_call_is_answered_from_the_table k w v es :
  fst (method k w) = Return v ->
  Forall (quiet cache) es ->
  (other_calls key_eqb k es < maxsize)%nat ->
  let w2 := run' es (snd (method k w)) in
  method k w2 = (Return v, set_cache ((k, v) :: del k (cache w2)) w2) /\
  sent (snd (method k w2)) = sent w2.
Proof.
  intros Hfirst Hq Hfew w2.
  assert (Hhit : get k (cache w2) = Some v).
  { apply (@within_get k v (1 + other_calls key_eqb k es)).
    apply within_run; [assumption|lia|lia|].
    now apply within_after_call. }
  rewrite (lru_cache_hit set_cache body Hhit).
  split; [reflexivity|]. cbn [snd]. apply sent_set.
Qed.

End Memoised.

(** The body of [get_general_field_single] leaves its table alone. *)
Lemma get_general_field_single__wrapped_frame k w :
  general_field_single_cache (snd (get_general_field_single__wrapped k w))
  = general_field_single_cache w.
Proof.
  destruct k as [str_ticker str_field].
  unfold get_general_field_single__wrapped, bindM, get_reference_data, lift, ret.
  destruct (dm w _) as [d|e]; [|reflexivity].
  destruct (iloc_0_0 d) as [x|e]; [|reflexivity].
  destruct (str_eqb _ _); [|reflexivity].
  destruct (strip_comb x); reflexivity.
Qed.

Lemma second_call_is_answered_from_the_table_witness :
  let k := ("IBM US Equity" : str, "px_last" : str) in
  let w := new_world (terminal_with_table old_price) in
  let es := [Elsewhere (K:=general_field_single_key)
               (set_dm (terminal_with_table new_price));
             Call (other_ticker 0)] in
  let w2 := run (eqb_of general_field_single_key_eq_dec)
                general_field_single_cache set_general_field_single_cache
                get_general_field_single__wrapped es
                (snd (get_general_field_single k w)) in
  get_general_field_single k w2
  = (Return (VNum (PyInt 100)),
     set_general_field_single_cache
       ((k, VNum (PyInt 100))
          :: cache_del (eqb_of general_field_single_key_eq_dec) k
               (general_field_single_cache w2)) w2) /\
  sent (snd (get_general_field_single k w2)) = sent w2.
Proof.
  intros k w es w2.
  apply (@second_call_is_answered_from_the_table
           general_field_single_key value
           (eqb_of general_field_single_key_eq_dec)
           general_field_single_cache set_general_field_single_cache
           get_general_field_single__wrapped
           (eqb_of_spec general_field_single_key_eq_dec)
           (fun t w => eq_refl) (fun t w => eq_refl)
           get_general_field_single__wrapped_frame
           k w (VNum (PyInt 100)) es).
  - reflexivity.
  - repeat constructor.
  - vm_compute. lia.
Defined.

(** C8, as stated, fails: the table of [lru_cache()] holds 128 entries.
    The price of IBM is asked for, then 128 other prices, then the
    terminal's data changes; asked again, the method goes back to the
    terminal and returns the new price. *)
Lemma lru_cache_evicts :
  let k := ("IBM US Equity" : str, "px_last" : str) in
  let w := new_world (terminal_with_table old_price) in
  let es := map (fun i => Call (other_ticker i)) (seq 0 128)
            ++ [Elsewhere (set_dm (terminal_with_table new_price))] in
  let w2 := run (eqb_of general_field_single_key_eq_dec)
                general_field_single_cache set_general_field_single_cache
                get_general_field_single__wrapped es
                (snd (get_general_field_single k w)) in
  fst (get_general_field_single k w) = Return (VNum (PyInt 100)) /\
  fst (get_general_field_single k w2) = Return (VNum (PyInt 101)) /\
  length (sent (snd (get_general_field_single k w2))) = S (length (sent w2)).
Proof. vm_compute. repeat split. Qed.

(* ===================================================================== *)
(** * The states a BBG object can reach *)
(* ===================================================================== *)

Lemma preserves_ret {A} P (a : A) : preserves P (ret a).
Proof. intros w H. exact H. Qed.

Lemma preserves_raise {A} P e : preserves P (@raise A e).
Proof. intros w H. exact H. Qed.

Lemma preserves_lift {A} P (r : result A) : preserves P (lift r).
Proof. intros w H. exact H. Qed.

Lemma preserves_bindM {A B} P (m : M A) (k : A -> M B) :
  preserves P m -> (forall a, preserves P (k a)) -> preserves P (bindM m k).
Proof.
  intros Hm Hk w H. unfold bindM. specialize (Hm w H).
  destruct (m w) as [[a|e] w']; simpl in *; [now apply Hk|exact Hm].
Qed.

Lemma preserves_for_each {A B} P (f : A -> M B) xs :
  (forall x, preserves P (f x)) -> preserves P (for_each f xs).
Proof.
  intros Hf. induction xs as [|x xs IH]; simpl.
  - apply preserves_ret.
  - apply preserves_bindM; [apply Hf|]. intros y.
    apply preserves_bindM; [exact IH|]. intros ys. apply preserves_ret.
Qed.

Lemma preserves_get_reference_data P req :
  (forall s w, P w -> P (set_sent s w)) -> preserves P (get_reference_data req).
Proof. intros Hs w H. unfold get_reference_data. simpl. now apply Hs. Qed.

Lemma preserves_lru_cache {K V} P key_eqb (cache : world -> list (K * V))
      set_cache body k :
  (forall t w, P w -> P (set_cache t w)) ->
  (forall k', preserves P (body k')) ->
  preserves P (lru_cache key_eqb cache set_cache body k).
Proof.
  intros Hset Hbody w H. unfold lru_cache.
  destruct (cache_get key_eqb k (cache w)); [now apply Hset|].
  specialize (Hbody k w H).
  destruct (body k w) as [[v|e] w']; cbv zeta; cbn [snd] in *; [|exact Hbody].
  destruct (cache_get key_eqb k (cache w')); [exact Hbody|].
  destruct (maxsize <=? length (cache w'))%nat; now apply Hset.
Qed.

(** Steps through the binds of a method body. *)
Ltac preserves_body :=
  repeat first
    [ apply preserves_ret
    | apply preserves_raise
    | apply preserves_lift
    | apply preserves_get_reference_data; intros ? ? ?; assumption
    | apply preserves_for_each; intros
    | apply preserves_bindM; [|intros]
    | match goal with
      | |- preserves _ (if ?b then _ else _) => destruct b
      | |- preserves _ (match ?x with _ => _ end) => destruct x
      end ].

Section ReachableFacts.
Variable strftime_Ymd : datetime -> str.
Variable strptime_b_y : str -> result datetime.
Variable interp1d_cubic : list float -> list value -> float -> result float.

Lemma preserves_convert_bbg_tenor_tag str_tag :
  preserves tenor_cache_sound (convert_bbg_tenor_tag str_tag).
Proof.
  intros w H. destruct (convert_bbg_tenor_tag_sound str_tag H) as (_ & t & -> & Ht).
  exact Ht.
Qed.

Lemma preserves_get_ois_tenor args :
  preserves tenor_cache_sound (get_ois strftime_Ymd interp1d_cubic args).
Proof.
  unfold get_ois. apply preserves_lru_cache; [intros t w H; exact H|].
  intros [[[date tgt_tenor] str_currency] num_side].
  unfold get_ois__wrapped, get_ois_curve. preserves_body.
  apply preserves_convert_bbg_tenor_tag.
Qed.

(** The body of [get_ois] leaves the table of [get_ois] alone. *)
Lemma get_ois__wrapped_frame c args :
  preserves (fun w => ois_cache w = c)
            (get_ois__wrapped strftime_Ymd interp1d_cubic args).
Proof.
  destruct args as [[[date tgt_tenor] str_currency] num_side].
  unfold get_ois__wrapped, get_ois_curve. preserves_body.
  unfold convert_bbg_tenor_tag. apply preserves_lru_cache.
  - intros t w H. exact H.
  - intros k'. apply preserves_lift.
Qed.

Lemma preserves_get_ois_ois args :
  preserves (ois_cache_sound strftime_Ymd interp1d_cubic)
            (get_ois strftime_Ymd interp1d_cubic args).
Proof.
  intros w H args' x Hin. unfold get_ois in Hin.
  apply (@lru_cache_entries _ _ _ (eqb_of ois_key_eq_dec) ois_cache set_ois_cache
         (get_ois__wrapped strftime_Ymd interp1d_cubic)
         (eqb_of_spec ois_key_eq_dec) (fun t w0 => eq_refl) args w) in Hin.
  destruct Hin as [Hin|[Hin|(v & [= -> ->] & Hv)]].
  - now apply H.
  - rewrite (@get_ois__wrapped_frame (ois_cache w) args w eq_refl) in Hin.
    now apply H.
  - now exists w.
Qed.

(** Every state a [BBG] object can reach has sound tables. *)
Theorem reachable_sound w :
  reachable strftime_Ymd strptime_b_y interp1d_cubic w ->
  tenor_cache_sound w /\ ois_cache_sound strftime_Ymd interp1d_cubic w.
Proof.
  induction 1 as [d|w w' Hreach [IHt IHo] Hstep].
  - split; [apply new_world_tenor_sound|intros args x []].
  - destruct Hstep as [w d|w str_tag|w str_ticker|w args|w args|w args].
    + split; [exact IHt|exact IHo].
    + split; [now apply preserves_convert_bbg_tenor_tag|].
      destruct (convert_bbg_tenor_tag_sound str_tag IHt) as (_ & t & -> & _).
      exact IHo.
    + assert (Ht : preserves tenor_cache_sound
                     (get_option_fields strptime_b_y str_ticker))
        by (unfold get_option_fields; preserves_body).
      assert (Ho : preserves (ois_cache_sound strftime_Ymd interp1d_cubic)
                     (get_option_fields strptime_b_y str_ticker))
        by (unfold get_option_fields; preserves_body).
      split; [now apply Ht|now apply Ho].
    + split.
      * apply (@preserves_lru_cache _ _ tenor_cache_sound); try assumption.
        -- intros t w0 H0. exact H0.
        -- intros [[[[a b] c] d] e]. unfold get_general_fields__wrapped.
           preserves_body.
      * apply (@preserves_lru_cache _ _ (ois_cache_sound strftime_Ymd interp1d_cubic));
          try assumption.
        -- intros t w0 H0. exact H0.
        -- intros [[[[a b] c] d] e]. unfold get_general_fields__wrapped.
           preserves_body.
    + split.
      * apply (@preserves_lru_cache _ _ tenor_cache_sound); try assumption.
        -- intros t w0 H0. exact H0.
        -- intros [a b]. unfold get_general_field_single__wrapped. preserves_body.
      * apply (@preserves_lru_cache _ _ (ois_cache_sound strftime_Ymd interp1d_cubic));
          try assumption.
        -- intros t w0 H0. exact H0.
        -- intros [a b]. unfold get_general_field_single__wrapped. preserves_body.
    + split; [now apply preserves_get_ois_tenor|now apply preserves_get_ois_ois].
Qed.

End ReachableFacts.

(* ===================================================================== *)
(** * More on the string methods *)
(* ===================================================================== *)

(** ** [str.split] *)

Lemma split_ws_word tok : forall cur,
  forallb (fun c => negb (isspace_char c)) tok = true ->
  (cur <> [] \/ tok <> []) ->
  split_ws cur tok = [rev cur ++ tok].
Proof.
  induction tok as [|a tok IH]; intros cur Hns Hne; simpl.
  - destruct cur as [|c cur]; [destruct Hne; congruence|].
    now rewrite app_nil_r.
  - simpl in Hns. apply andb_prop in Hns as [Ha Hns].
    apply negb_true_iff in Ha. rewrite Ha.
    rewrite (IH (a :: cur) Hns); [|left; discriminate].
    simpl. now rewrite <- app_assoc.
Qed.

Lemma getlast_cons {A} (x : A) l y :
  getlast l = Return y -> getlast (x :: l) = Return y.
Proof.
  unfold getlast. simpl. destruct (rev l) as [|a r]; [discriminate|].
  intros [= ->]. reflexivity.
Qed.

Lemma getlast_split_ws pre c tok : forall cur,
  isspace_char c = true ->
  tok <> [] ->
  forallb (fun c => negb (isspace_char c)) tok = true ->
  getlast (split_ws cur (pre ++ c :: tok)) = Return tok.
Proof.
  intros cur Hc Hne Hns. revert cur.
  induction pre as [|a pre IH]; intros cur; simpl.
  - rewrite Hc, (split_ws_word (cur:=[]) Hns) by (now right).
    destruct cur; reflexivity.
  - destruct (isspace_char a).
    + destruct cur; [apply IH|apply getlast_cons, IH].
    + apply IH.
Qed.

(** The security type of a ticker is its last word: what follows the last
    white space, when the ticker does not end in white space. *)
Lemma security_type_last_word pre c tok :
  isspace_char c = true ->
  tok <> [] ->
  forallb (fun c => negb (isspace_char c)) tok = true ->
  security_type (One (pre ++ c :: tok)) = Return tok.
Proof. intros. now apply getlast_split_ws. Qed.

(** ** [str.replace] *)

Lemma startswith_app old s : startswith old (old ++ s) = true.
Proof.
  induction old as [|a old IH]; [reflexivity|]. simpl.
  destruct (ascii_dec a a); [exact IH|congruence].
Qed.

Lemma startswith_inv old : forall s,
  startswith old s = true -> exists rest, s = old ++ rest.
Proof.
  induction old as [|a old IH]; intros s H.
  - now exists s.
  - destruct s as [|b s]; [discriminate|]. simpl in H.
    destruct (ascii_dec a b) as [->|]; [|discriminate].
    destruct (IH s H) as [rest ->]. now exists rest.
Qed.

Lemma replace_from_skip old new m s :
  replace_from old new (length m) (m ++ s) = replace old new s.
Proof.
  induction m as [|c m IH]; [reflexivity|]. simpl. exact IH.
Qed.

(** An occurrence at the head is replaced, and the search goes on after
    it. *)
Lemma replace_occurrence old new s :
  old <> [] -> replace old new (old ++ s) = new ++ replace old new s.
Proof.
  intros Hne. destruct old as [|a old]; [congruence|].
  unfold replace at 1. cbn [app replace_from].
  change (a :: old ++ s) with ((a :: old) ++ s). rewrite startswith_app.
  replace (length (a :: old) - 1)%nat with (length old) by (simpl; lia).
  now rewrite replace_from_skip.
Qed.

(** A character that starts no occurrence is kept. *)
Lemma replace_other old new c s :
  startswith old (c :: s) = false ->
  replace old new (c :: s) = c :: replace old new s.
Proof. unfold replace. simpl replace_from. now intros ->. Qed.

(** A text without occurrence is left as it is. *)
Lemma replace_absent old new s :
  old <> [] ->
  (forall a b, s <> a ++ old ++ b) ->
  replace old new s = s.
Proof.
  intros Hne. induction s as [|c s IH]; intros Habs; [reflexivity|].
  rewrite replace_other.
  - f_equal. apply IH. intros a b ->. apply (Habs (c :: a) b). reflexivity.
  - destruct (startswith old (c :: s)) eqn:E; [|reflexivity].
    destruct (startswith_inv E) as [rest Hrest].
    exfalso. apply (Habs [] rest). exact Hrest.
Qed.

(** The first occurrence: when no occurrence starts inside [a], the text
    [a ++ old ++ b] becomes [a ++ new] followed by what [b] becomes. *)
Lemma replace_first_occurrence old new a b :
  old <> [] ->
  (forall a1 c a2, a = a1 ++ c :: a2 -> startswith old (c :: a2 ++ old ++ b) = false) ->
  replace old new (a ++ old ++ b) = a ++ new ++ replace old new b.
Proof.
  intros Hne. induction a as [|c a IH]; intros Hfirst.
  - simpl app. now apply replace_occurrence.
  - simpl app. rewrite replace_other; [|apply (Hfirst [] c a eq_refl)].
    f_equal. apply IH. intros a1 c' a2 ->. apply (Hfirst (c :: a1) c' a2). reflexivity.
Qed.

Example strip_comb_twice :
  replace " COMB" empty "CLZ9 COMB COMB Comdty" = ("CLZ9 Comdty" : str).
Proof. reflexivity. Qed.

(** What is left may again read " COMB": the text is scanned once. *)
Example strip_comb_once_through :
  replace " COMB" empty " CO COMBMB" = (" COMB" : str).
Proof. reflexivity. Qed.

(* ===================================================================== *)
(** * More on tenors and curves *)
(* ===================================================================== *)

(** A magnitude beyond the range of the floats. *)
Example tenor_overflow :
  convert_bbg_tenor_tag__wrapped ("1" ++ repeat "0"%char 309 ++ "D")
  = Raise (OverflowError "int too large to convert to float").
Proof. vm_compute. reflexivity. Qed.

(** Twelve months and one year are the same tenor. *)
Example tenor_12M_1Y :
  (let* a := convert_bbg_tenor_tag__wrapped "12M" in
   let* b := convert_bbg_tenor_tag__wrapped "1Y" in
   let* x := as_float64 a in
   let* y := as_float64 b in
   Return (feq x y)) = Return true.
Proof. vm_compute. reflexivity. Qed.

(** The labels of a column are converted one by one; in a state with a
    sound table the outcome is that of the bodies, and the table stays
    sound. *)
Lemma for_each_convert_bbg_tenor_tag tags : forall w,
  tenor_cache_sound w ->
  fst (for_each (fun l => tag <- lift (as_tag l) ;; convert_bbg_tenor_tag tag) tags w)
  = traverse (fun l => let* tag := as_tag l in convert_bbg_tenor_tag__wrapped tag) tags.
Proof.
  induction tags as [|l tags IH]; intros w Hw; [reflexivity|].
  simpl for_each. simpl traverse. unfold bindM at 1 2, lift at 1.
  destruct (as_tag l) as [tag|e]; [|reflexivity]. cbn [bind].
  destruct (convert_bbg_tenor_tag_sound tag Hw) as (Hv & t & Hs & Ht).
  destruct (convert_bbg_tenor_tag tag w) as [r w'] eqn:E. simpl in Hv, Hs.
  subst r w'. destruct (convert_bbg_tenor_tag__wrapped tag) as [x|e]; [|reflexivity].
  cbn [bind]. unfold bindM. specialize (IH _ Ht).
  destruct (for_each _ tags (set_tenor_tag_cache t w)) as [[ys|e] w''];
    simpl in IH; rewrite <- IH; reflexivity.
Qed.

Lemma traverse_tags tags :
  traverse (fun l => let* tag := as_tag l in convert_bbg_tenor_tag__wrapped tag)
           (map VStr tags)
  = traverse convert_bbg_tenor_tag__wrapped tags.
Proof.
  induction tags as [|t tags IH]; [reflexivity|].
  simpl. now rewrite IH.
Qed.

(** The first stage of [get_ois]: when the terminal answers with a curve
    whose labels all convert, the stage returns the tenors in years and
    the renamed curve holding them. *)
Lemma get_ois_curve_returns strftime_Ymd w date str_currency str_curve d raw
      tags converted tenors :
  tenor_cache_sound w ->
  str_curve_of str_currency = Some str_curve ->
  dm w (Request (One str_curve) (Field "curve_tenor_rates") None None
          [("curve_date" : str,
            match date with DateStr s => s | DateObj t => strftime_Ymd t end)])
  = Return d ->
  loc_first "curve_tenor_rates" d = Return (VFrame raw) ->
  column "tenor" (rename curve_columns raw) = Return (map VStr tags) ->
  traverse convert_bbg_tenor_tag__wrapped tags = Return converted ->
  traverse as_float64 converted = Return tenors ->
  fst (get_ois_curve strftime_Ymd date str_currency w)
  = Return (tenors, set_column "tenor" (rate_cells tenors) (rename curve_columns raw)).
Proof.
  intros Hw Hcur Hdm Hloc Hcol Hconv Hfloat.
  unfold get_ois_curve. rewrite Hcur.
  unfold bindM at 1, lift at 1, read_local.
  unfold bindM at 1, get_reference_data at 1. rewrite Hdm.
  unfold bindM at 1, lift at 1. rewrite Hloc.
  unfold bindM at 1, lift at 1, as_frame.
  unfold bindM at 1, lift at 1. rewrite Hcol.
  unfold bindM at 1.
  assert (Hw' : tenor_cache_sound
                  (set_sent
                     (Request (One str_curve) (Field "curve_tenor_rates") None None
                        [("curve_date" : str,
                          match date with
                          | DateStr s => s
                          | DateObj t => strftime_Ymd t
                          end)] :: sent w) w)) by exact Hw.
  pose proof (for_each_convert_bbg_tenor_tag (map VStr tags) Hw') as Heach.
  rewrite traverse_tags, Hconv in Heach.
  destruct (for_each _ (map VStr tags) _) as [[ys|e] w'']; simpl in Heach;
    [|discriminate].
  injection Heach as ->.
  unfold bindM, lift. rewrite Hfloat. reflexivity.
Qed.

(** Where two rows share the lowest tenor the short end has no single
    rate, and the conversion of the selection fails. *)
Example get_ois_two_lowest_rows :
  fst (get_ois strftime_Ymd_4 interp1d_min4
         (DateStr "20190502", true_div 1 2, "usd" : str, "mid" : str)
         (new_world (terminal_with_curve
                       (bbg_curve ["12M" : str; "1Y" : str; "2Y" : str]
                                  [round_Z 1; true_div 11 10; true_div 12 10]))))
  = Raise (TypeError "cannot convert the series to float").
Proof. vm_compute. reflexivity. Qed.

(** The body of [get_general_fields] leaves its table alone, as those of
    [get_general_field_single] and [get_ois] do: no memoised method of the
    class calls itself. *)
Lemma get_general_fields__wrapped_frame args w :
  general_fields_cache (snd (get_general_fields__wrapped args w))
  = general_fields_cache w.
Proof. destruct args as [[[[a b] c] d] e]. reflexivity. Qed.

(* ===================================================================== *)
(** * Instances *)
(* ===================================================================== *)

(** [split_letters_numbers] never raises, and the pieces it returns are
    the text it was given, cut: joined, they give it back. *)
Theorem split_letters_numbers_pieces (str_in : str) :
  exists parts,
    split_letters_numbers str_in = Return parts /\ join parts = str_in.
Proof. apply split_letters_numbers_join. Qed.

Lemma reachable_sound_witness :
  let w := snd (get_ois strftime_Ymd_4 interp1d_min4
                  (DateStr "20190502", true_div 1 2, "usd" : str, "mid" : str)
                  (new_world (terminal_with_curve example_curve))) in
  tenor_cache_sound w /\ ois_cache_sound strftime_Ymd_4 interp1d_min4 w.
Proof.
  intros w.
  apply (@reachable_sound strftime_Ymd_4 strptime_b_y_en interp1d_min4 w).
  eapply reachable_step; [apply reachable_new|apply step_get_ois].
Defined.

Lemma security_type_last_word_witness :
  security_type (One "CLZ9C 60 Comdty") = Return ("Comdty" : str).
Proof.
  apply (@security_type_last_word "CLZ9C 60" " "%char "Comdty").
  - reflexivity.
  - discriminate.
  - reflexivity.
Defined.

Lemma replace_first_occurrence_witness :
  replace " COMB" empty ("CLZ9" ++ " COMB" ++ " Comdty")
  = "CLZ9" ++ empty ++ replace " COMB" empty " Comdty".
Proof.
  apply (@replace_first_occurrence " COMB" empty "CLZ9" " Comdty").
  - discriminate.
  - intros a1 c a2 H.
    destruct a1 as [|x1 [|x2 [|x3 [|x4 a1]]]]; simpl in H;
      injection H; intros; subst; try reflexivity.
    destruct a1; discriminate.
Defined.

Lemma get_ois_curve_returns_witness :
  fst (get_ois_curve strftime_Ymd_4 (DateObj (Datetime 2019 5 2)) "USD"
         (new_world (terminal_with_curve example_curve)))
  = Return ([round_Z 1; round_Z 2; round_Z 3; round_Z 6],
            set_column "tenor" (rate_cells [round_Z 1; round_Z 2; round_Z 3; round_Z 6])
              (rename curve_columns example_curve)).
Proof.
  eapply (@get_ois_curve_returns strftime_Ymd_4
            (new_world (terminal_with_curve example_curve))
            (DateObj (Datetime 2019 5 2)) "USD" _ _ example_curve
            ["1Y" : str; "2Y" : str; "3Y" : str; "6Y" : str]).
  - apply new_world_tenor_sound.
  - reflexivity.
  - reflexivity.
  - reflexivity.
  - reflexivity.
  - vm_compute. reflexivity.
  - vm_compute. reflexivity.
Defined.

(* ===================================================================== *)
(** * The pieces of a text *)
(* ===================================================================== *)

Lemma span_decimal_decimal s : forallb is_decimal (fst (span_decimal s)) = true.
Proof.
  induction s as [|c s IH]; [reflexivity|]. simpl.
  destruct (is_decimal c) eqn:E; [|reflexivity].
  destruct (span_decimal s) as [ds rest]. simpl in *. now rewrite E.
Qed.

Lemma span_decimal_no_digit_head s :
  match s with c :: _ => is_decimal c = false | [] => True end ->
  span_decimal s = ([], s).
Proof. destruct s as [|c s]; [reflexivity|]. simpl. now intros ->. Qed.

Lemma is_dot_eq c : is_dot c = true -> c = "."%char.
Proof.
  unfold is_dot, ord. intros H. apply Nat.eqb_eq in H.
  rewrite <- (ascii_nat_embedding c), H. reflexivity.
Qed.

(** What the pattern matches: a run of digits, or digits, a dot and
    digits. *)
Lemma match_here_shape s m rest :
  match_here s = Some (m, rest) ->
  (m <> [] /\ forallb is_decimal m = true) \/
  (exists ds fs, m = ds ++ "."%char :: fs /\ forallb is_decimal ds = true /\
                 forallb is_decimal fs = true /\ fs <> []).
Proof.
  unfold match_here.
  pose proof (span_decimal_decimal s) as Hds.
  destruct (span_decimal s) as [ds r]. simpl in Hds.
  assert (Halt : match ds with [] => None | _ => Some (ds, r) end = Some (m, rest) ->
                 m <> [] /\ forallb is_decimal m = true).
  { destruct ds; [discriminate|]. intros [= <- <-]. split; [discriminate|exact Hds]. }
  destruct r as [|c r']; [left; auto|].
  destruct (is_dot c) eqn:Ec; [|left; auto].
  pose proof (span_decimal_decimal r') as Hfs.
  destruct (span_decimal r') as [fs r'']. simpl in Hfs.
  destruct fs as [|f fs]; [left; auto|].
  intros [= <- <-]. right. exists ds, (f :: fs).
  rewrite (is_dot_eq Ec). repeat split; auto. discriminate.
Qed.

Lemma match_here_decimal_head c s : is_decimal c = true -> match_here (c :: s) <> None.
Proof.
  intros Hc. unfold match_here. simpl span_decimal. rewrite Hc.
  destruct (span_decimal s) as [ds r].
  destruct r as [|c' r']; [discriminate|].
  destruct (is_dot c'); [|discriminate].
  destruct (span_decimal r') as [[|f fs] r'']; discriminate.
Qed.

(** The text before the leftmost match holds no digit, and the match has
    the shape of a number. *)
Lemma search_shape s : forall pre m rest,
  search s = Some (pre, m, rest) ->
  no_digit pre = true /\
  ((m <> [] /\ forallb is_decimal m = true) \/
   (exists ds fs, m = ds ++ "."%char :: fs /\ forallb is_decimal ds = true /\
                  forallb is_decimal fs = true /\ fs <> [])).
Proof.
  induction s as [|c s IH]; intros pre m rest; simpl; [discriminate|].
  destruct (match_here (c :: s)) as [[m0 r0]|] eqn:E.
  - intros [= <- <- <-]. split; [reflexivity|]. now apply match_here_shape in E.
  - destruct (search s) as [[[p1 m1] r1]|] eqn:Es; [|discriminate].
    intros [= <- <- <-]. destruct (IH _ _ _ eq_refl) as [Hp Hm].
    split; [|exact Hm]. unfold no_digit in *. simpl. rewrite Hp.
    destruct (is_decimal c) eqn:Ec; [|reflexivity].
    exfalso. now apply (@match_here_decimal_head c s Ec).
Qed.

(** Without a digit there is no match. *)
Lemma search_no_digit s : no_digit s = true -> search s = None.
Proof.
  unfold no_digit. induction s as [|c s IH]; intros H; [reflexivity|].
  simpl in H. apply andb_prop in H as [Hc Hs]. apply negb_true_iff in Hc.
  assert (Hm : match_here (c :: s) = None).
  { unfold match_here. simpl span_decimal. rewrite Hc.
    destruct (is_dot c); [|reflexivity].
    rewrite span_decimal_no_digit_head; [reflexivity|].
    destruct s as [|c' s]; [exact I|]. simpl in Hs.
    apply andb_prop in Hs as [Hc' _]. now apply negb_true_iff in Hc'. }
  simpl search. rewrite Hm, (IH Hs). reflexivity.
Qed.

(** Letters before a text do not change where its first match is. *)
Lemma search_letters t s :
  letters t = true ->
  search (t ++ s) = match search s with
                    | Some (pre, m, rest) => Some (t ++ pre, m, rest)
                    | None => None
                    end.
Proof.
  unfold letters. induction t as [|c t IH]; intros H.
  - simpl. destruct (search s) as [[[pre m] rest]|]; reflexivity.
  - simpl in H. apply andb_prop in H as [Hc Ht]. apply andb_prop in Hc as [Hd Hdot].
    apply negb_true_iff in Hd, Hdot.
    assert (Hm : match_here (c :: t ++ s) = None).
    { unfold match_here. simpl span_decimal. rewrite Hd, Hdot. reflexivity. }
    simpl app. simpl search. rewrite Hm, (IH Ht).
    destruct (search s) as [[[pre m] rest]|]; reflexivity.
Qed.

(** A run of digits at the head of a text whose rest holds no digit is its
    only match. *)
Lemma search_digits_head ds t :
  ds <> [] -> forallb is_decimal ds = true -> no_digit t = true ->
  search (ds ++ t) = Some ([], ds, t).
Proof.
  intros Hne Hds Ht.
  assert (Hhead : match t with c :: _ => is_decimal c = false | [] => True end).
  { destruct t as [|c t]; [exact I|]. unfold no_digit in Ht. simpl in Ht.
    apply andb_prop in Ht as [Hc _]. now apply negb_true_iff in Hc. }
  assert (Hm : match_here (ds ++ t) = Some (ds, t)).
  { unfold match_here. rewrite (span_decimal_run (rest:=t) Hds Hhead).
    destruct ds as [|d ds]; [congruence|].
    destruct t as [|c t']; [reflexivity|].
    destruct (is_dot c); [|reflexivity].
    rewrite span_decimal_no_digit_head; [reflexivity|].
    destruct t' as [|c' t']; [exact I|]. unfold no_digit in Ht. simpl in Ht.
    apply andb_prop in Ht as [_ Ht]. apply andb_prop in Ht as [Hc' _].
    now apply negb_true_iff in Hc'. }
  destruct ds as [|d ds]; [congruence|]. simpl app in *. simpl search.
  now rewrite Hm.
Qed.

Lemma letters_no_digit t : letters t = true -> no_digit t = true.
Proof.
  unfold letters, no_digit. induction t as [|c t IH]; [reflexivity|]. simpl.
  intros H. apply andb_prop in H as [Hc Ht]. apply andb_prop in Hc as [-> _].
  now apply IH.
Qed.

Lemma re_split_no_digit s : no_digit s = true -> re_split s = [s].
Proof. intros H. now rewrite re_split_eq, (search_no_digit H). Qed.

Lemma split_letters_numbers_no_digit s :
  no_digit s = true ->
  split_letters_numbers s = Return (match s with [] => [] | _ => [s] end).
Proof.
  intros H. unfold split_letters_numbers. rewrite (re_split_no_digit H).
  destruct s; reflexivity.
Qed.

Lemma search_match_here s m rest :
  match_here s = Some (m, rest) -> search s = Some ([], m, rest).
Proof. destruct s as [|c s]; simpl; [discriminate|]. now intros ->. Qed.

Lemma re_split_single s b : re_split s = [b] -> search s = None /\ b = s.
Proof.
  rewrite re_split_eq. destruct (search s) as [[[pre m] rest]|].
  - discriminate.
  - intros [= <-]. split; reflexivity.
Qed.

Lemma remove_to_nil x l : remove x l = Return [] -> l = [x].
Proof.
  destruct l as [|y l]; simpl; [discriminate|].
  destruct (str_eqb y x) eqn:E.
  - intros [= ->]. apply str_eqb_eq in E. now subst.
  - destruct (remove x l); simpl; discriminate.
Qed.

(** When the split has two pieces, either the text starts with its only
    number, or it ends with it and starts with something else. *)
Lemma split_letters_numbers_two s a b :
  split_letters_numbers s = Return [a; b] ->
  (search s = Some ([], a, b) /\ search b = None) \/
  (a <> [] /\ search s = Some (a, b, [])).
Proof.
  unfold split_letters_numbers. rewrite re_split_eq.
  destruct (search s) as [[[pre m] rest]|] eqn:Es.
  - destruct (search_some Es) as [Hm _].
    unfold contains. simpl existsb. simpl remove.
    destruct pre as [|p pre].
    + change (str_eqb empty []) with true. change (str_eqb [] empty) with true.
      simpl. intros [= <- Hr]. left.
      destruct (re_split_single Hr) as [Hnone ->]. auto.
    + assert (E1 : str_eqb empty (p :: pre) = false) by (apply str_eqb_neq; discriminate).
      assert (E2 : str_eqb (p :: pre) empty = false) by (apply str_eqb_neq; discriminate).
      assert (E3 : str_eqb empty m = false) by (apply str_eqb_neq; unfold empty; congruence).
      assert (E4 : str_eqb m empty = false) by (apply str_eqb_neq; unfold empty; congruence).
      rewrite E1, E2, E3, E4. simpl orb.
      destruct (existsb (str_eqb empty) (re_split rest)) eqn:Ec.
      * destruct (remove empty (re_split rest)) as [r|e] eqn:Er; simpl; [|discriminate].
        intros [= <- <- ->]. right. split; [discriminate|].
        apply remove_to_nil in Er. destruct (re_split_single Er) as [_ Hrest].
        unfold empty in Hrest. now subst rest.
      * intros [= <- <- Hr]. exfalso. rewrite re_split_eq in Hr.
        destruct (search rest) as [[[? ?] ?]|]; discriminate.
  - unfold contains. simpl existsb. destruct (str_eqb empty s); simpl.
    + destruct (str_eqb s empty); simpl; discriminate.
    + discriminate.
Qed.

(** ** What [int] refuses *)

Lemma lstrip_head s :
  match s with c :: _ => isspace_char c = false | [] => True end -> lstrip s = s.
Proof. destruct s as [|c s]; [reflexivity|]. simpl. now intros ->. Qed.

Lemma forallb_lstrip (P : ascii -> bool) s :
  forallb P s = true -> forallb P (lstrip s) = true.
Proof.
  induction s as [|c s IH]; [reflexivity|]. simpl. intros H.
  destruct (isspace_char c); [|exact H].
  apply andb_prop in H as [_ H]. now apply IH.
Qed.

Lemma forallb_rev (P : ascii -> bool) s :
  forallb P s = true -> forallb P (rev s) = true.
Proof.
  rewrite !forallb_forall. intros H x Hx. apply H. now apply in_rev.
Qed.

Lemma forallb_strip (P : ascii -> bool) s :
  forallb P s = true -> forallb P (strip s) = true.
Proof.
  intros H. unfold strip.
  now apply forallb_rev, forallb_lstrip, forallb_rev, forallb_lstrip.
Qed.

Lemma int_body_no_digit_head acc s :
  match s with c :: _ => is_decimal c = false | [] => True end ->
  int_body false acc s = None.
Proof.
  destruct s as [|c s]; [reflexivity|]. simpl. intros ->.
  destruct (ord c =? 95)%nat; reflexivity.
Qed.

(** [int] needs a decimal digit. *)
Lemma int_no_digit s :
  no_digit s = true ->
  int s = Raise (ValueError ("invalid literal for int() with base 10: " ++ s)).
Proof.
  intros H. unfold int. apply forallb_strip in H.
  destruct (strip s) as [|c t]; [reflexivity|].
  simpl in H. apply andb_prop in H as [Hc Ht]. apply negb_true_iff in Hc.
  assert (Hnone : forall acc, int_body false acc t = None).
  { intros acc. apply int_body_no_digit_head.
    destruct t as [|d t]; [exact I|]. simpl in Ht.
    apply andb_prop in Ht as [Hd _]. now apply negb_true_iff in Hd. }
  rewrite !Hnone, (int_body_no_digit_head (s:=c :: t) 0%Z Hc).
  destruct (ord c =? 45)%nat; [reflexivity|].
  destruct (ord c =? 43)%nat; reflexivity.
Qed.

Lemma int_body_dot ds fs : forall prev acc,
  forallb is_decimal ds = true ->
  int_body prev acc (ds ++ "."%char :: fs) = None.
Proof.
  induction ds as [|d ds IH]; intros prev acc H; simpl.
  - reflexivity.
  - simpl in H. apply andb_prop in H as [-> H]. now apply IH.
Qed.

(** [int] refuses a number written with a dot. *)
Lemma int_dot ds fs :
  forallb is_decimal ds = true -> forallb is_decimal fs = true -> fs <> [] ->
  int (ds ++ "."%char :: fs)
  = Raise (ValueError ("invalid literal for int() with base 10: "
                       ++ ds ++ "."%char :: fs)).
Proof.
  intros Hds Hfs Hne. unfold int.
  assert (Hstrip : strip (ds ++ "."%char :: fs) = ds ++ "."%char :: fs).
  { unfold strip. rewrite (@lstrip_head (ds ++ "."%char :: fs)).
    2:{ destruct ds as [|d ds]; [reflexivity|]. simpl in Hds.
        apply andb_prop in Hds as [Hd _]. now apply is_decimal_not_space. }
    rewrite lstrip_head; [apply rev_involutive|].
    destruct (exists_last Hne) as (fs' & f & ->).
    replace (ds ++ "."%char :: fs' ++ [f]) with ((ds ++ "."%char :: fs') ++ [f])
      by (now rewrite <- app_assoc).
    rewrite rev_app_distr. simpl.
    apply is_decimal_not_space.
    rewrite forallb_forall in Hfs. apply Hfs, in_or_app. right. now left. }
  rewrite Hstrip.
  destruct ds as [|d ds].
  - reflexivity.
  - simpl app. simpl in Hds. apply andb_prop in Hds as [Hd Hds].
    assert (H45 : (ord d =? 45)%nat = false /\ (ord d =? 43)%nat = false).
    { unfold is_decimal, between in Hd. apply andb_prop in Hd as [H1 _].
      apply Nat.leb_le in H1. split; apply Nat.eqb_neq; lia. }
    destruct H45 as [-> ->].
    change (d :: ds ++ "."%char :: fs) with ((d :: ds) ++ "."%char :: fs).
    rewrite int_body_dot; [reflexivity|]. simpl. now rewrite Hd.
Qed.

(** ** The unit of a tenor *)

(** The chain of comparisons of [convert_bbg_tenor_tag] yields a factor
    for the eight one-letter units only. *)
Lemma unit_letter letter mult :
  (if str_eqb (lower letter) "d" then Return (PyFloat (true_div 1 365))
   else if str_eqb (lower letter) "w" then Return (PyFloat (true_div 1 52))
   else if str_eqb (lower letter) "m" then Return (PyFloat (true_div 1 12))
   else if str_eqb (lower letter) "y" then Return (PyInt 1)
   else Raise (TypeError "cannot find appropriate letter for tenor"))
  = Return mult ->
  exists u, letter = [u] /\ unit_factor u = Some mult.
Proof.
  destruct letter as [|u [|u' l]].
  - discriminate.
  - intros H. exists u. split; [reflexivity|].
    destruct u as [[] [] [] [] [] [] [] []];
      vm_compute in H; try discriminate H; injection H as <-; reflexivity.
  - intros H. exfalso.
    repeat match type of H with
           | (if str_eqb ?a ?b then _ else _) = _ =>
               let E := fresh "E" in
               destruct (str_eqb a b) eqn:E;
               [apply str_eqb_eq in E; simpl in E; congruence|]
           end.
    discriminate.
Qed.

(** The labels the body of [convert_bbg_tenor_tag] accepts. *)
Lemma convert_bbg_tenor_tag__wrapped_accepts tag x :
  convert_bbg_tenor_tag__wrapped tag = Return x ->
  exists ds u mult,
    tag = ds ++ [u] /\ ds <> [] /\ forallb is_decimal ds = true /\
    unit_factor u = Some mult /\ mul_int (digits_value ds) mult = Return x.
Proof.
  unfold convert_bbg_tenor_tag__wrapped.
  destruct (split_letters_numbers tag) as [parts|e] eqn:Hs; [|discriminate].
  cbn [bind].
  destruct parts as [|a [|b [|c l]]]; cbn [unpack2 bind]; try discriminate.
  destruct (split_letters_numbers_two Hs) as [[Hsearch Hb]|[Ha Hsearch]].
  - destruct (search_some Hsearch) as [Hne Htag]. simpl in Htag.
    destruct (search_shape Hsearch) as [_ [[_ Hdigits]|(ds & fs & -> & Hds & Hfs & Hfsne)]].
    + rewrite (int_decimal Hne Hdigits). cbn [bind]. intros H.
      match type of H with bind ?c _ = _ => destruct c as [mult|e] eqn:E end;
        [|discriminate].
      apply unit_letter in E. destruct E as (u & -> & Hu).
      exists a, u, mult. auto.
    + rewrite (int_dot Hds Hfs Hfsne). discriminate.
  - destruct (search_shape Hsearch) as [Hnd _].
    rewrite (int_no_digit Hnd). discriminate.
Qed.

(** Every label [convert_bbg_tenor_tag] accepts is made of a non-empty run
    of decimal digits and one of the letters D, W, M, Y in either case, and
    the value is the product of the magnitude and the factor of the unit:
    a sign, white space, a decimal point, a second number or a second
    letter all make the call raise. *)
Theorem convert_bbg_tenor_tag_accepts w tag x :
  tenor_cache_sound w ->
  fst (convert_bbg_tenor_tag tag w) = Return x ->
  exists ds u mult,
    tag = ds ++ [u] /\ ds <> [] /\ forallb is_decimal ds = true /\
    unit_factor u = Some mult /\ mul_int (digits_value ds) mult = Return x.
Proof.
  intros Hw. destruct (convert_bbg_tenor_tag_sound tag Hw) as [-> _].
  apply convert_bbg_tenor_tag__wrapped_accepts.
Qed.

Lemma convert_bbg_tenor_tag_accepts_witness :
  exists ds u mult,
    ("10Y" : str) = ds ++ [u] /\ ds <> [] /\ forallb is_decimal ds = true /\
    unit_factor u = Some mult /\ mul_int (digits_value ds) mult = Return (PyInt 10).
Proof.
  apply (@convert_bbg_tenor_tag_accepts (new_world offline) "10Y" (PyInt 10)).
  - apply new_world_tenor_sound.
  - reflexivity.
Defined.

(** A label without a decimal digit, the empty label included, has no
    number to split at: the unpacking of the pieces fails. *)
Theorem convert_bbg_tenor_tag_no_number w tag :
  tenor_cache_sound w -> no_digit tag = true ->
  fst (convert_bbg_tenor_tag tag w)
  = Raise (ValueError "not enough values to unpack (expected 2)").
Proof.
  intros Hw Hnd. destruct (convert_bbg_tenor_tag_sound tag Hw) as [-> _].
  unfold convert_bbg_tenor_tag__wrapped.
  rewrite (split_letters_numbers_no_digit Hnd). destruct tag; reflexivity.
Qed.

Lemma convert_bbg_tenor_tag_no_number_witness :
  fst (convert_bbg_tenor_tag "months" (new_world offline))
  = Raise (ValueError "not enough values to unpack (expected 2)").
Proof.
  apply (@convert_bbg_tenor_tag_no_number (new_world offline) "months").
  - apply new_world_tenor_sound.
  - reflexivity.
Defined.

Lemma re_split_nil : re_split [] = [[]].
Proof. now rewrite re_split_eq. Qed.

Lemma split_letters_numbers_digits ds :
  ds <> [] -> forallb is_decimal ds = true ->
  split_letters_numbers ds = Return [ds; []].
Proof.
  intros Hne Hds. unfold split_letters_numbers.
  pose proof (@search_digits_head ds [] Hne Hds eq_refl) as Hs.
  rewrite app_nil_r in Hs. rewrite re_split_eq, Hs, re_split_nil. reflexivity.
Qed.

(** A label that is a whole number and nothing else is split into the
    number and an empty unit, which is none of the units. *)
Theorem convert_bbg_tenor_tag_no_unit w ds :
  tenor_cache_sound w -> ds <> [] -> forallb is_decimal ds = true ->
  fst (convert_bbg_tenor_tag ds w)
  = Raise (TypeError "cannot find appropriate letter for tenor").
Proof.
  intros Hw Hne Hds. destruct (convert_bbg_tenor_tag_sound ds Hw) as [-> _].
  unfold convert_bbg_tenor_tag__wrapped.
  rewrite (split_letters_numbers_digits Hne Hds). cbn [bind unpack2].
  rewrite (int_decimal Hne Hds). reflexivity.
Qed.

Lemma convert_bbg_tenor_tag_no_unit_witness :
  fst (convert_bbg_tenor_tag "365" (new_world offline))
  = Raise (TypeError "cannot find appropriate letter for tenor").
Proof.
  apply (@convert_bbg_tenor_tag_no_unit (new_world offline) "365").
  - apply new_world_tenor_sound.
  - discriminate.
  - reflexivity.
Defined.

Lemma match_here_dotted ds fs rest :
  forallb is_decimal ds = true -> forallb is_decimal fs = true -> fs <> [] ->
  match rest with c :: _ => is_decimal c = false | [] => True end ->
  match_here (ds ++ "."%char :: fs ++ rest) = Some (ds ++ "."%char :: fs, rest).
Proof.
  intros Hds Hfs Hne Hrest. unfold match_here.
  rewrite (span_decimal_run (rest:="."%char :: fs ++ rest) Hds eq_refl).
  change (is_dot "."%char) with true. cbv iota.
  rewrite (span_decimal_run (rest:=rest) Hfs Hrest).
  destruct fs; [congruence|reflexivity].
Qed.

Lemma no_digit_head rest :
  no_digit rest = true ->
  match rest with c :: _ => is_decimal c = false | [] => True end.
Proof.
  destruct rest as [|c rest]; [easy|]. unfold no_digit. simpl. intros H.
  apply andb_prop in H as [H _]. now apply negb_true_iff in H.
Qed.

(** A magnitude written with a decimal point is kept in one piece by
    the split and refused by [int], whatever follows it: no label with a
    fractional magnitude converts. *)
Theorem convert_bbg_tenor_tag_decimal_magnitude w ds fs rest :
  tenor_cache_sound w ->
  forallb is_decimal ds = true -> forallb is_decimal fs = true -> fs <> [] ->
  no_digit rest = true ->
  fst (convert_bbg_tenor_tag (ds ++ "."%char :: fs ++ rest) w)
  = Raise (ValueError ("invalid literal for int() with base 10: "
                       ++ ds ++ "."%char :: fs)).
Proof.
  intros Hw Hds Hfs Hne Hrest.
  destruct (convert_bbg_tenor_tag_sound (ds ++ "."%char :: fs ++ rest) Hw) as [-> _].
  unfold convert_bbg_tenor_tag__wrapped, split_letters_numbers.
  rewrite re_split_eq.
  rewrite (search_match_here (match_here_dotted Hds Hfs Hne (no_digit_head Hrest))).
  rewrite (re_split_no_digit Hrest).
  assert (Hm : str_eqb (ds ++ "."%char :: fs) empty = false).
  { apply str_eqb_neq. destruct ds; discriminate. }
  unfold contains. simpl existsb. change (str_eqb empty []) with true.
  simpl orb. simpl remove. change (str_eqb [] empty) with true.
  cbn [bind unpack2]. rewrite (int_dot Hds Hfs Hne). reflexivity.
Qed.

Lemma convert_bbg_tenor_tag_decimal_magnitude_witness :
  fst (convert_bbg_tenor_tag "2.5W" (new_world offline))
  = Raise (ValueError "invalid literal for int() with base 10: 2.5").
Proof.
  apply (@convert_bbg_tenor_tag_decimal_magnitude
           (new_world offline) ["2"%char] ["5"%char] ["W"%char]).
  - apply new_world_tenor_sound.
  - reflexivity.
  - reflexivity.
  - discriminate.
  - reflexivity.
Defined.

(* ===================================================================== *)
(** * Tickers and their year *)
(* ===================================================================== *)

Lemma isdigit_decimal ds :
  ds <> [] -> forallb is_decimal ds = true -> isdigit ds = true.
Proof.
  intros Hne Hds. unfold isdigit. destruct ds as [|d ds]; [congruence|].
  rewrite forallb_forall in *. intros x Hx. unfold isdigit_char.
  now rewrite (Hds x Hx).
Qed.

(** Letters, then a whole number, then a text that starts with neither a
    digit nor a dot: the first match is the number. *)
Lemma search_letters_digits t1 ds rest :
  letters t1 = true -> ds <> [] -> forallb is_decimal ds = true ->
  match rest with
  | c :: _ => is_decimal c = false /\ is_dot c = false
  | [] => True
  end ->
  search (t1 ++ ds ++ rest) = Some (t1, ds, rest).
Proof.
  intros Ht Hne Hds Hrest.
  assert (Hm : match_here (ds ++ rest) = Some (ds, rest)).
  { unfold match_here. rewrite (span_decimal_run (rest:=rest) Hds).
    2:{ destruct rest; [exact I|tauto]. }
    destruct ds as [|d ds]; [congruence|].
    destruct rest as [|c rest]; [reflexivity|].
    destruct Hrest as [_ ->]. reflexivity. }
  rewrite (search_letters _ Ht), (search_match_here Hm), app_nil_r. reflexivity.
Qed.

Lemma re_split_not_nil s : re_split s <> [].
Proof.
  rewrite re_split_eq. destruct (search s) as [[[pre m] rest]|]; discriminate.
Qed.

(** The pieces of such a ticker: the letters, the number, and at least one
    piece more; the pieces after the number join to the text after it. *)
Lemma split_letters_numbers_letters_digits t1 ds c rest :
  letters t1 = true -> t1 <> [] ->
  forallb is_decimal ds = true -> ds <> [] ->
  is_decimal c = false -> is_dot c = false ->
  exists r0 r,
    split_letters_numbers (t1 ++ ds ++ c :: rest) = Return (t1 :: ds :: r0 :: r) /\
    join (r0 :: r) = c :: rest.
Proof.
  intros Ht Htne Hds Hdne Hc Hdot. unfold split_letters_numbers.
  rewrite re_split_eq.
  rewrite (@search_letters_digits t1 ds (c :: rest) Ht Hdne Hds (conj Hc Hdot)).
  assert (E1 : str_eqb empty t1 = false) by (apply str_eqb_neq; unfold empty; congruence).
  assert (E2 : str_eqb t1 empty = false) by (apply str_eqb_neq; unfold empty; congruence).
  assert (E3 : str_eqb empty ds = false) by (apply str_eqb_neq; unfold empty; congruence).
  assert (E4 : str_eqb ds empty = false) by (apply str_eqb_neq; unfold empty; congruence).
  unfold contains. simpl existsb. simpl remove. rewrite E1, E2, E3, E4. simpl orb.
  pose proof (re_split_join (c :: rest)) as Hjoin.
  destruct (existsb (str_eqb empty) (re_split (c :: rest))) eqn:Ec.
  - destruct (remove_contains Ec) as (r & -> & Hlen & Hj). cbn [bind].
    destruct r as [|r0 r].
    + exfalso. destruct (re_split (c :: rest)) as [|x [|? ?]] eqn:ER; try discriminate.
      destruct (re_split_single ER) as [_ ->]. cbn [existsb] in Ec.
      rewrite (proj2 (str_eqb_neq empty (c :: rest))) in Ec; discriminate.
    + exists r0, r. split; [reflexivity|]. exact (eq_trans (Hj eq_refl) Hjoin).
  - destruct (re_split (c :: rest)) as [|r0 r] eqn:ER.
    + now apply re_split_not_nil in ER.
    + exists r0, r. split; [reflexivity|exact Hjoin].
Qed.

(** A ticker made of letters, a whole number and a text that starts with
    neither a digit nor a dot gets the third character of a four-character
    year in front of its number; the rest of the ticker, further numbers
    included, is unchanged. *)
Theorem insert_year_into_ticker_inserts t1 ds c rest str_year y :
  letters t1 = true -> t1 <> [] ->
  forallb is_decimal ds = true -> ds <> [] ->
  is_decimal c = false -> is_dot c = false ->
  length str_year = 4%nat -> nth_error str_year 2 = Some y ->
  insert_year_into_ticker (t1 ++ ds ++ c :: rest) str_year
  = Return (t1 ++ y :: ds ++ c :: rest).
Proof.
  intros Ht Htne Hds Hdne Hc Hdot Hlen Hy.
  destruct (split_letters_numbers_letters_digits rest Ht Htne Hds Hdne Hc Hdot)
    as (r0 & r & Hsplit & Hjoin).
  unfold insert_year_into_ticker. rewrite Hsplit. cbn [bind].
  change (length (t1 :: ds :: r0 :: r) <? 3)%nat with false. cbv iota.
  unfold getitem at 1. cbn [nth_error bind].
  rewrite (isdigit_decimal Hdne Hds), Hlen. cbn [negb Nat.eqb].
  unfold getitem. rewrite Hy. cbn [bind]. unfold setitem.
  change (1 <? length (t1 :: ds :: r0 :: r))%nat with true. cbn [set_nth bind].
  unfold join in *. cbn [concat]. cbn [concat] in Hjoin. now rewrite Hjoin.
Qed.

Lemma insert_year_into_ticker_inserts_witness :
  insert_year_into_ticker "CLZ9C 60 Comdty" "2019"
  = Return ("CLZ19C 60 Comdty" : str).
Proof.
  apply (@insert_year_into_ticker_inserts
           "CLZ" "9" "C"%char " 60 Comdty" "2019" "1"%char);
    reflexivity || discriminate.
Defined.

(** A ticker with no number, or with one whole number at its start or at
    its end, has fewer than three pieces and is refused. *)
Theorem insert_year_into_ticker_one_number t1 ds t2 str_year :
  letters t1 = true -> forallb is_decimal ds = true -> no_digit t2 = true ->
  t1 = [] \/ ds = [] \/ t2 = [] ->
  insert_year_into_ticker (t1 ++ ds ++ t2) str_year
  = Raise (IOError "the ticker passed in needs to conform to bbg standards.").
Proof.
  intros Ht Hds Ht2 Hcase. unfold insert_year_into_ticker.
  destruct ds as [|d ds].
  - assert (Hnd : no_digit (t1 ++ [] ++ t2) = true).
    { pose proof (letters_no_digit Ht) as Ht1. unfold no_digit in *. simpl.
      rewrite forallb_app. now rewrite Ht1, Ht2. }
    rewrite (split_letters_numbers_no_digit Hnd).
    destruct (t1 ++ [] ++ t2); reflexivity.
  - assert (Hs : search (t1 ++ (d :: ds) ++ t2) = Some (t1, d :: ds, t2)).
    { rewrite (search_letters _ Ht), search_digits_head, app_nil_r;
        [reflexivity|discriminate|assumption|assumption]. }
    unfold split_letters_numbers.
    rewrite re_split_eq, Hs, (re_split_no_digit Ht2).
    destruct t1 as [|a t1].
    + reflexivity.
    + destruct Hcase as [H|[H|H]]; try discriminate H. subst t2.
      reflexivity.
Qed.

Lemma insert_year_into_ticker_one_number_witness :
  insert_year_into_ticker "CLZ9" "2019"
  = Raise (IOError "the ticker passed in needs to conform to bbg standards.").
Proof.
  apply (@insert_year_into_ticker_one_number "CLZ" "9" [] "2019");
    try reflexivity.
  right. right. reflexivity.
Defined.

(* ===================================================================== *)
(** * The lowest tenor *)
(* ===================================================================== *)

(** The comparison of floats is transitive, the special values included. *)
Lemma flt_trans x y z : flt x y = true -> flt y z = true -> flt x z = true.
Proof.
  unfold flt, SFltb, SFcompare.
  destruct x as [sx|sx| |sx mx ex], y as [sy|sy| |sy my ey], z as [sz|sz| |sz mz ez];
    try discriminate;
    repeat match goal with s : bool |- _ => destruct s end;
    try discriminate; try reflexivity.
  - change (Pos.compare_cont Eq ?a ?b) with (Pos.compare a b).
    destruct (Z.compare_spec ex ey), (Z.compare_spec ey ez), (Z.compare_spec ex ez);
      subst; try lia; try discriminate; try reflexivity.
    destruct (Pos.compare_spec mx my), (Pos.compare_spec my mz), (Pos.compare_spec mx mz);
      subst; simpl; try lia; try discriminate; try reflexivity.
  - change (Pos.compare_cont Eq ?a ?b) with (Pos.compare a b).
    destruct (Z.compare_spec ex ey), (Z.compare_spec ey ez), (Z.compare_spec ex ez);
      subst; try lia; try discriminate; try reflexivity.
    destruct (Pos.compare_spec mx my), (Pos.compare_spec my mz), (Pos.compare_spec mx mz);
      subst; simpl; try lia; try discriminate; try reflexivity.
Qed.

(** The scan of [min]: nothing seen is below the result, and the result is
    the start or below it. *)
Lemma min_from_lower l : forall m,
  flt m (min_from m l) = false /\
  (forall x, In x l -> flt x (min_from m l) = false) /\
  (min_from m l = m \/ flt (min_from m l) m = true).
Proof.
  induction l as [|y l IH]; intros m; simpl.
  - split; [|split; [intros x []|now left]].
    destruct (flt m m) eqn:E; [|reflexivity].
    exfalso. revert E. unfold flt, SFltb, SFcompare.
    destruct m as [s|s| |s mm e]; try discriminate.
    + destruct s; discriminate.
    + destruct s; rewrite Z.compare_refl, Pos.compare_cont_refl; discriminate.
  - destruct (IH (if flt y m then y else m)) as (HA & HB & HC).
    destruct (flt y m) eqn:Eym.
    + split; [|split].
      * destruct (flt m (min_from y l)) eqn:E; [|reflexivity].
        now rewrite (flt_trans Eym E) in HA.
      * intros x [<-|Hx]; [exact HA|now apply HB].
      * right. destruct HC as [->|HC]; [exact Eym|exact (flt_trans HC Eym)].
    + split; [exact HA|split; [|exact HC]].
      intros x [<-|Hx]; [|now apply HB].
      destruct HC as [->|HC]; [exact Eym|].
      destruct (flt y (min_from m l)) eqn:E; [|reflexivity].
      now rewrite (flt_trans E HC) in Eym.
Qed.

(** No element of a list is below its minimum. *)
Lemma min_lower_bound l m :
  min l = Return m -> forall x, In x l -> flt x m = false.
Proof.
  destruct l as [|x0 l]; [discriminate|]. intros [= <-] x Hx.
  destruct (min_from_lower l x0) as (HA & HB & _).
  destruct Hx as [<-|Hx]; [exact HA|now apply HB].
Qed.

Section ShortEnd.

Variable strftime_Ymd : datetime -> str.
Variable interp1d_cubic : list float -> list value -> float -> result float.

(** A target below every tenor of a curve that is not empty and unique by
    tenor gets the rate of a row that no row is below, whatever the order
    of the rows and whatever the interpolation library is. *)
Theorem get_ois_below_every_tenor
    w date tgt_tenor str_currency num_side tenors curve rates :
  cache_get (eqb_of ois_key_eq_dec)
    (date, tgt_tenor, str_currency, num_side) (ois_cache w) = None ->
  fst (get_ois_curve strftime_Ymd date str_currency w) = Return (tenors, curve) ->
  column num_side curve = Return (rate_cells rates) ->
  length rates = length tenors ->
  unique_by_tenor tenors ->
  tenors <> [] ->
  (forall t, In t tenors -> flt tgt_tenor t = true) ->
  exists i lowest rate,
    nth_error tenors i = Some lowest /\
    (forall t, In t tenors -> flt t lowest = false) /\
    nth_error rates i = Some rate /\
    fst (get_ois strftime_Ymd interp1d_cubic
           (date, tgt_tenor, str_currency, num_side) w)
    = Return (rate, curve).
Proof.
  intros Hmiss Hcurve Hside Hlen Huniq Hne Hbelow.
  destruct (min tenors) as [lowest|e] eqn:Hmin;
    [|destruct tenors; [congruence|discriminate]].
  destruct (min_In Hmin) as [i Hi].
  assert (Hlt : flt tgt_tenor lowest = true)
    by (apply Hbelow; exact (nth_error_In _ _ Hi)).
  assert (Hi' : (i < length rates)%nat).
  { rewrite Hlen. apply nth_error_Some. congruence. }
  destruct (nth_error rates i) as [rate|] eqn:Hrate;
    [|apply nth_error_None in Hrate; lia].
  exists i, lowest, rate. split; [assumption|].
  split; [exact (min_lower_bound Hmin)|]. split; [assumption|].
  unfold get_ois. rewrite (lru_cache_miss_value _ _ Hmiss).
  rewrite (get_ois__wrapped_rate interp1d_cubic tgt_tenor num_side Hcurve).
  unfold get_ois_rate. rewrite Hmin. cbn [bind]. rewrite Hlt, Hside. cbn [bind].
  rewrite (@select_single _ (fun t => feq t lowest) (rate_cells rates)
             tenors i lowest (VNum (PyFloat rate))).
  - reflexivity.
  - unfold rate_cells. now rewrite length_map.
  - assumption.
  - unfold rate_cells. now rewrite nth_error_map, Hrate.
  - apply (flt_feq_refl Hlt).
  - intros j b Hj Hb. apply (Huniq j i b lowest Hj Hb Hi).
Qed.

(** A curve without rows has no lowest tenor: [min] refuses the empty
    column before the side is looked up or the library called. *)
Theorem get_ois_empty_curve w date tgt_tenor str_currency num_side curve :
  cache_get (eqb_of ois_key_eq_dec)
    (date, tgt_tenor, str_currency, num_side) (ois_cache w) = None ->
  fst (get_ois_curve strftime_Ymd date str_currency w) = Return ([], curve) ->
  fst (get_ois strftime_Ymd interp1d_cubic
         (date, tgt_tenor, str_currency, num_side) w)
  = Raise (ValueError "min() arg is an empty sequence").
Proof.
  intros Hmiss Hcurve.
  unfold get_ois. rewrite (lru_cache_miss_value _ _ Hmiss).
  now rewrite (get_ois__wrapped_rate interp1d_cubic tgt_tenor num_side Hcurve).
Qed.

(** A side that is no column of the curve is a [KeyError], on the short
    end as elsewhere; the interpolation library is not called. *)
Theorem get_ois_missing_side w date tgt_tenor str_currency num_side tenors curve :
  cache_get (eqb_of ois_key_eq_dec)
    (date, tgt_tenor, str_currency, num_side) (ois_cache w) = None ->
  fst (get_ois_curve strftime_Ymd date str_currency w) = Return (tenors, curve) ->
  tenors <> [] ->
  has_column num_side curve = false ->
  fst (get_ois strftime_Ymd interp1d_cubic
         (date, tgt_tenor, str_currency, num_side) w)
  = Raise (KeyError num_side).
Proof.
  intros Hmiss Hcurve Hne Hside.
  unfold get_ois. rewrite (lru_cache_miss_value _ _ Hmiss).
  rewrite (get_ois__wrapped_rate interp1d_cubic tgt_tenor num_side Hcurve).
  unfold get_ois_rate.
  destruct (min tenors) as [lowest|e] eqn:Hmin;
    [|destruct tenors; [congruence|discriminate]].
  cbn [bind].
  assert (Hcol : column num_side curve = Raise (KeyError num_side)).
  { unfold column, has_column in *.
    destruct (assoc num_side (columns curve)); [discriminate|reflexivity]. }
  destruct (flt tgt_tenor lowest); rewrite Hcol; reflexivity.
Qed.

End ShortEnd.

(** Rows that are not in the order of their tenors: 2Y, 6M, 1Y. *)
Lemma get_ois_below_every_tenor_witness :
  exists i lowest rate,
    nth_error [round_Z 2; fmul (round_Z 6) (true_div 1 12); round_Z 1] i
    = Some lowest /\
    (forall t, In t [round_Z 2; fmul (round_Z 6) (true_div 1 12); round_Z 1] ->
               flt t lowest = false) /\
    nth_error [true_div 12 10; round_Z 1; true_div 11 10] i = Some rate /\
    fst (get_ois strftime_Ymd_4 interp1d_min4
           (DateStr "20190502", true_div 1 4, "usd" : str, "mid" : str)
           (new_world (terminal_with_curve
              (bbg_curve ["2Y" : str; "6M" : str; "1Y" : str]
                         [true_div 12 10; round_Z 1; true_div 11 10]))))
    = Return (rate,
              DataFrame ["2Y" : str; "6M" : str; "1Y" : str]
                [("tenor" : str,
                  rate_cells [round_Z 2; fmul (round_Z 6) (true_div 1 12); round_Z 1]);
                 ("mid" : str,
                  rate_cells [true_div 12 10; round_Z 1; true_div 11 10])]).
Proof.
  apply (@get_ois_below_every_tenor strftime_Ymd_4 interp1d_min4
           (new_world (terminal_with_curve
              (bbg_curve ["2Y" : str; "6M" : str; "1Y" : str]
                         [true_div 12 10; round_Z 1; true_div 11 10])))).
  - reflexivity.
  - vm_compute. reflexivity.
  - vm_compute. reflexivity.
  - reflexivity.
  - apply all_distinct_unique. vm_compute. reflexivity.
  - discriminate.
  - intros t [<-|[<-|[<-|[]]]]; vm_compute; reflexivity.
Defined.

Lemma get_ois_empty_curve_witness :
  fst (get_ois strftime_Ymd_4 interp1d_min4
         (DateStr "20190502", true_div 1 4, "usd" : str, "mid" : str)
         (new_world (terminal_with_curve (bbg_curve [] []))))
  = Raise (ValueError "min() arg is an empty sequence").
Proof.
  apply (@get_ois_empty_curve strftime_Ymd_4 interp1d_min4
           (new_world (terminal_with_curve (bbg_curve [] [])))
           (DateStr "20190502") (true_div 1 4) "usd" "mid"
           (DataFrame [] [("tenor" : str, []); ("mid" : str, [])])).
  - reflexivity.
  - vm_compute. reflexivity.
Defined.

Lemma get_ois_missing_side_witness :
  fst (get_ois strftime_Ymd_4 interp1d_min4
         (DateStr "20190502", true_div 5 2, "usd" : str, "ask" : str)
         (new_world (terminal_with_curve example_curve)))
  = Raise (KeyError "ask").
Proof.
  apply (@get_ois_missing_side strftime_Ymd_4 interp1d_min4
           (new_world (terminal_with_curve example_curve))
           (DateStr "20190502") (true_div 5 2) "usd" "ask"
           [round_Z 1; round_Z 2; round_Z 3; round_Z 6]
           (DataFrame ["1Y" : str; "2Y" : str; "3Y" : str; "6Y" : str]
              [("tenor" : str,
                rate_cells [round_Z 1; round_Z 2; round_Z 3; round_Z 6]);
               ("mid" : str,
                rate_cells [round_Z 1; true_div 12 10; true_div 13 10;
                            true_div 3 2])])).
  - reflexivity.
  - vm_compute. reflexivity.
  - discriminate.
  - reflexivity.
Defined.

(* ===================================================================== *)
(** * The size of the tables *)
(* ===================================================================== *)

Lemma NoDup_removelast {A} (l : list A) : NoDup l -> NoDup (removelast l).
Proof.
  induction l as [|a l IH]; [easy|]. intros H. inversion H as [|? ? Hin Hl]; subst.
  destruct l as [|b l]; [constructor|].
  change (removelast (a :: b :: l)) with (a :: removelast (b :: l)).
  constructor; [|now apply IH].
  intros Ha. apply Hin. now apply removelast_incl.
Qed.

Lemma map_removelast {A B} (f : A -> B) (l : list A) :
  map f (removelast l) = removelast (map f l).
Proof.
  induction l as [|a l IH]; [reflexivity|].
  destruct l as [|b l]; [reflexivity|].
  change (removelast (a :: b :: l)) with (a :: removelast (b :: l)).
  cbn [map] in *. rewrite IH. reflexivity.
Qed.

Lemma length_removelast {A} (l : list A) :
  length (removelast l) = (length l - 1)%nat.
Proof.
  induction l as [|a l IH]; [reflexivity|].
  destruct l as [|b l]; [reflexivity|].
  change (removelast (a :: b :: l)) with (a :: removelast (b :: l)).
  simpl length in *. rewrite IH. lia.
Qed.

Section TableBound.
Context {K V W : Type}.
Variable key_eqb : K -> K -> bool.
Variable cache : W -> list (K * V).
Variable set_cache : list (K * V) -> W -> W.
Variable user_function : K -> W -> result V * W.

Hypothesis key_eqb_spec : forall a b, key_eqb a b = true <-> a = b.
Hypothesis cache_set : forall t w, cache (set_cache t w) = t.

Lemma cache_get_absent k (t : list (K * V)) :
  cache_get key_eqb k t = None -> ~ In k (map fst t).
Proof.
  induction t as [|[k' v'] t IH]; simpl; [tauto|].
  destruct (key_eqb k k') eqn:E; [discriminate|].
  intros H [Hk|Hk]; [|now apply IH].
  subst k'. rewrite (proj2 (key_eqb_spec k k) eq_refl) in E. discriminate.
Qed.

Lemma cache_del_length k (t : list (K * V)) v :
  cache_get key_eqb k t = Some v ->
  S (length (cache_del key_eqb k t)) = length t.
Proof.
  induction t as [|[k' v'] t IH]; simpl; [discriminate|].
  destruct (key_eqb k k'); [reflexivity|]. intros H. simpl. now rewrite IH.
Qed.

Lemma cache_del_keys k (t : list (K * V)) :
  NoDup (map fst t) ->
  NoDup (map fst (cache_del key_eqb k t)) /\
  ~ In k (map fst (cache_del key_eqb k t)).
Proof.
  induction t as [|[k' v'] t IH]; simpl; intros H.
  - split; [constructor|tauto].
  - inversion H as [|? ? Hin Hnd]; subst.
    destruct (key_eqb k k') eqn:E.
    + apply key_eqb_spec in E. subst k'. split; assumption.
    + destruct (IH Hnd) as [IH1 IH2]. simpl. split.
      * constructor; [|exact IH1]. intros Hk. apply Hin.
        apply in_map_iff in Hk as (x & <- & Hx). apply in_map.
        now apply (cache_del_incl (key_eqb:=key_eqb) Hx).
      * intros [Hk|Hk]; [|now apply IH2].
        subst k'. rewrite (proj2 (key_eqb_spec k k) eq_refl) in E. discriminate.
Qed.

(** A call keeps the table of the function within its bound and free of
    repeated keys, when the function itself does. *)
Lemma lru_cache_table_ok k w :
  table_ok (cache w) ->
  table_ok (cache (snd (user_function k w))) ->
  table_ok (cache (snd (lru_cache key_eqb cache set_cache user_function k w))).
Proof.
  intros [Hlen Hnd] Hbody. unfold lru_cache.
  destruct (cache_get key_eqb k (cache w)) as [v|] eqn:E.
  - cbn [snd]. rewrite cache_set. split.
    + simpl length. rewrite (cache_del_length E). exact Hlen.
    + simpl map. destruct (cache_del_keys k Hnd) as [H1 H2]. now constructor.
  - destruct (user_function k w) as [[v|e] w']; cbv zeta; cbn [snd] in *;
      [|exact Hbody].
    destruct Hbody as [Hlen' Hnd'].
    destruct (cache_get key_eqb k (cache w')) eqn:E'; [now split|].
    pose proof (cache_get_absent E') as Hk.
    destruct (Nat.leb_spec maxsize (length (cache w'))) as [Hfull|Hroom];
      cbn [snd]; rewrite cache_set; split.
    + simpl length. rewrite length_removelast. unfold maxsize in *. lia.
    + simpl map. constructor.
      * rewrite map_removelast. intros H. apply Hk. now apply removelast_incl.
      * rewrite map_removelast. now apply NoDup_removelast.
    + simpl length. lia.
    + simpl map. now constructor.
Qed.

End TableBound.

(** In the form of an invariant of the state. *)
Lemma preserves_table_ok {K V} key_eqb (cache : world -> list (K * V))
      set_cache body k :
  (forall a b, key_eqb a b = true <-> a = b) ->
  (forall t w, cache (set_cache t w) = t) ->
  (forall k', preserves (fun w => table_ok (cache w)) (body k')) ->
  preserves (fun w => table_ok (cache w))
            (lru_cache key_eqb cache set_cache body k).
Proof.
  intros Hspec Hset Hbody w H.
  apply (lru_cache_table_ok Hspec Hset); [exact H|now apply Hbody].
Qed.

Section ReachableTables.
Variable strftime_Ymd : datetime -> str.
Variable strptime_b_y : str -> result datetime.
Variable interp1d_cubic : list float -> list value -> float -> result float.

Lemma convert_bbg_tenor_tag_table_ok str_tag :
  preserves (fun w => table_ok (tenor_tag_cache w)) (convert_bbg_tenor_tag str_tag).
Proof.
  unfold convert_bbg_tenor_tag. apply preserves_table_ok.
  - apply str_eqb_spec.
  - reflexivity.
  - intros k'. apply preserves_lift.
Qed.

(** A table other than that of [convert_bbg_tenor_tag] is not touched by
    it. *)
Lemma convert_bbg_tenor_tag_other P str_tag :
  (forall t w, P w -> P (set_tenor_tag_cache t w)) ->
  preserves P (convert_bbg_tenor_tag str_tag).
Proof.
  intros H. unfold convert_bbg_tenor_tag. apply preserves_lru_cache; [exact H|].
  intros k'. apply preserves_lift.
Qed.

Lemma get_ois__wrapped_keeps P args :
  (forall s w, P w -> P (set_sent s w)) ->
  (forall str_tag, preserves P (convert_bbg_tenor_tag str_tag)) ->
  preserves P (get_ois__wrapped strftime_Ymd interp1d_cubic args).
Proof.
  intros Hsent Htag. destruct args as [[[date tgt_tenor] str_currency] num_side].
  unfold get_ois__wrapped, get_ois_curve.
  repeat first
    [ apply preserves_ret
    | apply preserves_lift
    | apply preserves_get_reference_data; exact Hsent
    | apply Htag
    | apply preserves_for_each; intros
    | apply preserves_bindM; [|intros]
    | match goal with
      | |- preserves _ (match ?x with _ => _ end) => destruct x
      end ].
Qed.

Lemma step_tables_ok w w' :
  step strftime_Ymd strptime_b_y interp1d_cubic w w' -> tables_ok w -> tables_ok w'.
Proof.
  intros Hstep (Hgf & Hgs & Htt & Hois).
  destruct Hstep as [w d|w str_tag|w str_ticker|w args|w args|w args];
    unfold tables_ok; (split; [|split; [|split]]); try assumption.
  - apply convert_bbg_tenor_tag_other; [intros t w0 H0; exact H0|assumption].
  - apply convert_bbg_tenor_tag_other; [intros t w0 H0; exact H0|assumption].
  - now apply convert_bbg_tenor_tag_table_ok.
  - apply convert_bbg_tenor_tag_other; [intros t w0 H0; exact H0|assumption].
  - assert (H : preserves (fun w0 => table_ok (general_fields_cache w0))
                  (get_option_fields strptime_b_y str_ticker))
      by (unfold get_option_fields; preserves_body).
    now apply H.
  - assert (H : preserves (fun w0 => table_ok (general_field_single_cache w0))
                  (get_option_fields strptime_b_y str_ticker))
      by (unfold get_option_fields; preserves_body).
    now apply H.
  - assert (H : preserves (fun w0 => table_ok (tenor_tag_cache w0))
                  (get_option_fields strptime_b_y str_ticker))
      by (unfold get_option_fields; preserves_body).
    now apply H.
  - assert (H : preserves (fun w0 => table_ok (ois_cache w0))
                  (get_option_fields strptime_b_y str_ticker))
      by (unfold get_option_fields; preserves_body).
    now apply H.
  - apply (@preserves_table_ok _ _ _ general_fields_cache);
      [apply eqb_of_spec|reflexivity| |assumption].
    intros [[[[a b] c] d] e]. unfold get_general_fields__wrapped. preserves_body.
  - apply (@preserves_lru_cache _ _
             (fun w0 => table_ok (general_field_single_cache w0)));
      [intros t w0 H0; exact H0| |assumption].
    intros [[[[a b] c] d] e]. unfold get_general_fields__wrapped. preserves_body.
  - apply (@preserves_lru_cache _ _ (fun w0 => table_ok (tenor_tag_cache w0)));
      [intros t w0 H0; exact H0| |assumption].
    intros [[[[a b] c] d] e]. unfold get_general_fields__wrapped. preserves_body.
  - apply (@preserves_lru_cache _ _ (fun w0 => table_ok (ois_cache w0)));
      [intros t w0 H0; exact H0| |assumption].
    intros [[[[a b] c] d] e]. unfold get_general_fields__wrapped. preserves_body.
  - apply (@preserves_lru_cache _ _ (fun w0 => table_ok (general_fields_cache w0)));
      [intros t w0 H0; exact H0| |assumption].
    intros [a b]. unfold get_general_field_single__wrapped. preserves_body.
  - apply (@preserves_table_ok _ _ _ general_field_single_cache);
      [apply eqb_of_spec|reflexivity| |assumption].
    intros [a b]. unfold get_general_field_single__wrapped. preserves_body.
  - apply (@preserves_lru_cache _ _ (fun w0 => table_ok (tenor_tag_cache w0)));
      [intros t w0 H0; exact H0| |assumption].
    intros [a b]. unfold get_general_field_single__wrapped. preserves_body.
  - apply (@preserves_lru_cache _ _ (fun w0 => table_ok (ois_cache w0)));
      [intros t w0 H0; exact H0| |assumption].
    intros [a b]. unfold get_general_field_single__wrapped. preserves_body.
  - apply (@preserves_lru_cache _ _ (fun w0 => table_ok (general_fields_cache w0)));
      [intros t w0 H0; exact H0| |assumption].
    intros k'. apply get_ois__wrapped_keeps; [intros s w0 H0; exact H0|].
    intros str_tag. apply convert_bbg_tenor_tag_other. intros t w0 H0; exact H0.
  - apply (@preserves_lru_cache _ _
             (fun w0 => table_ok (general_field_single_cache w0)));
      [intros t w0 H0; exact H0| |assumption].
    intros k'. apply get_ois__wrapped_keeps; [intros s w0 H0; exact H0|].
    intros str_tag. apply convert_bbg_tenor_tag_other. intros t w0 H0; exact H0.
  - apply (@preserves_lru_cache _ _ (fun w0 => table_ok (tenor_tag_cache w0)));
      [intros t w0 H0; exact H0| |assumption].
    intros k'. apply get_ois__wrapped_keeps; [intros s w0 H0; exact H0|].
    apply convert_bbg_tenor_tag_table_ok.
  - apply (@preserves_table_ok _ _ _ ois_cache);
      [apply eqb_of_spec|reflexivity| |assumption].
    intros k'. apply get_ois__wrapped_keeps; [intros s w0 H0; exact H0|].
    intros str_tag. apply convert_bbg_tenor_tag_other. intros t w0 H0; exact H0.
Qed.

(** In every state a [BBG] object can reach, each of the four tables holds
    at most 128 entries and no arguments twice: the tables do not grow
    without bound. *)
Theorem reachable_tables_ok w :
  reachable strftime_Ymd strptime_b_y interp1d_cubic w -> tables_ok w.
Proof.
  induction 1 as [d|w w' Hreach IH Hstep].
  - unfold tables_ok, table_ok, new_world, maxsize. simpl.
    repeat split; try lia; constructor.
  - exact (step_tables_ok Hstep IH).
Qed.

End ReachableTables.

Lemma reachable_tables_ok_witness :
  tables_ok
    (snd (get_ois strftime_Ymd_4 interp1d_min4
            (DateStr "20190502", true_div 1 2, "usd" : str, "mid" : str)
            (new_world (terminal_with_curve example_curve)))).
Proof.
  apply (@reachable_tables_ok strftime_Ymd_4 strptime_b_y_en interp1d_min4).
  eapply reachable_step; [apply reachable_new|apply step_get_ois].
Defined.

(* ===================================================================== *)
(** * Failures are not remembered *)
(* ===================================================================== *)

(** A call that raises found nothing in the table and is the call of the
    function itself: the table is as the function left it. *)
Lemma lru_cache_raise_inv {K V W} (key_eqb : K -> K -> bool)
      (cache : W -> list (K * V)) set_cache user_function k w e :
  fst (lru_cache key_eqb cache set_cache user_function k w) = Raise e ->
  cache_get key_eqb k (cache w) = None /\
  lru_cache key_eqb cache set_cache user_function k w = user_function k w.
Proof.
  unfold lru_cache. destruct (cache_get key_eqb k (cache w)); [discriminate|].
  destruct (user_function k w) as [[v|e'] w']; cbv zeta.
  - destruct (cache_get key_eqb k (cache w')); [discriminate|].
    destruct (maxsize <=? length (cache w'))%nat; discriminate.
  - intros _. split; reflexivity.
Qed.

(** When [get_general_fields] raises, the request went to the terminal and
    nothing was stored; the same call made later asks the terminal again
    and its outcome is the terminal's answer of that time. *)
Theorem get_general_fields_failure_not_stored
    str_ticker str_fields ignore_security_error ignore_field_error overrides w e d :
  fst (get_general_fields
         (str_ticker, str_fields, ignore_security_error, ignore_field_error,
          overrides) w) = Raise e ->
  snd (get_general_fields
         (str_ticker, str_fields, ignore_security_error, ignore_field_error,
          overrides) w)
  = set_sent (Request str_ticker str_fields (Some 0%Z) (Some 0%Z) overrides :: sent w) w /\
  fst (get_general_fields
         (str_ticker, str_fields, ignore_security_error, ignore_field_error,
          overrides)
         (set_dm d
            (snd (get_general_fields
                    (str_ticker, str_fields, ignore_security_error,
                     ignore_field_error, overrides) w))))
  = d (Request str_ticker str_fields (Some 0%Z) (Some 0%Z) overrides).
Proof.
  intros H. unfold get_general_fields in *.
  destruct (lru_cache_raise_inv H) as [Hmiss Heq]. rewrite Heq.
  split; [reflexivity|].
  rewrite lru_cache_miss_value; [reflexivity|exact Hmiss].
Qed.

Lemma get_general_fields_failure_not_stored_witness :
  snd (get_general_fields
         (One "IBM US Equity", Field "px_last", 0%Z, 0%Z, []) (new_world offline))
  = set_sent [Request (One "IBM US Equity") (Field "px_last") (Some 0%Z) (Some 0%Z) []]
             (new_world offline) /\
  fst (get_general_fields
         (One "IBM US Equity", Field "px_last", 0%Z, 0%Z, [])
         (set_dm (terminal_with_table old_price)
            (snd (get_general_fields
                    (One "IBM US Equity", Field "px_last", 0%Z, 0%Z, [])
                    (new_world offline)))))
  = Return old_price.
Proof.
  apply (@get_general_fields_failure_not_stored
           (One "IBM US Equity") (Field "px_last") 0%Z 0%Z [] (new_world offline)
           (LibraryError "tia" "no connection") (terminal_with_table old_price)).
  reflexivity.
Defined.

(** For a field other than the description of the underlying, in any
    case, [get_general_field_single] returns the first cell of the answer
    as it is. *)
Theorem get_general_field_single_other_field w str_ticker str_field d v :
  cache_get (eqb_of general_field_single_key_eq_dec)
    (str_ticker, str_field) (general_field_single_cache w) = None ->
  dm w (Request (One str_ticker) (Field str_field) None None []) = Return d ->
  iloc_0_0 d = Return v ->
  lower str_field <> ("underlying_security_des" : str) ->
  fst (get_general_field_single (str_ticker, str_field) w) = Return v.
Proof.
  intros Hmiss Hd Hv Hfield. unfold get_general_field_single.
  rewrite (lru_cache_miss_value _ _ Hmiss).
  unfold get_general_field_single__wrapped, bindM, get_reference_data, lift, ret.
  rewrite Hd, Hv.
  now rewrite (proj2 (str_eqb_neq (lower str_field) "underlying_security_des") Hfield).
Qed.

Lemma get_general_field_single_other_field_witness :
  fst (get_general_field_single ("CLZ9C 60 Comdty" : str, "NAME" : str)
         (new_world (terminal_with_table example_underlying_table)))
  = Return (VStr "CLZ9 COMB Comdty").
Proof.
  apply (@get_general_field_single_other_field
           (new_world (terminal_with_table example_underlying_table))
           "CLZ9C 60 Comdty" "NAME" example_underlying_table).
  - reflexivity.
  - reflexivity.
  - reflexivity.
  - discriminate.
Defined.

(* ===================================================================== *)
(** * Requests per call *)
(* ===================================================================== *)

Lemma silent_ret {A} (a : A) : silent (ret a).
Proof. intros w. reflexivity. Qed.

Lemma silent_raise {A} e : silent (@raise A e).
Proof. intros w. reflexivity. Qed.

Lemma silent_lift {A} (r : result A) : silent (lift r).
Proof. intros w. reflexivity. Qed.

Lemma silent_preserves {A} (m : M A) :
  silent m <-> forall s, preserves (fun w => sent w = s) m.
Proof.
  split.
  - intros H s w Hw. now rewrite H.
  - intros H w. now apply (H (sent w)).
Qed.

Lemma silent_bindM {A B} (m : M A) (k : A -> M B) :
  silent m -> (forall a, silent (k a)) -> silent (bindM m k).
Proof.
  rewrite !silent_preserves. intros Hm Hk s. apply preserves_bindM; [apply Hm|].
  intros a. now apply silent_preserves.
Qed.

Lemma silent_for_each {A B} (f : A -> M B) xs :
  (forall x, silent (f x)) -> silent (for_each f xs).
Proof.
  intros Hf. apply silent_preserves. intros s. apply preserves_for_each.
  intros x. now apply silent_preserves.
Qed.

Lemma silent_convert_bbg_tenor_tag str_tag : silent (convert_bbg_tenor_tag str_tag).
Proof.
  apply silent_preserves. intros s. unfold convert_bbg_tenor_tag.
  apply preserves_lru_cache; [intros t w H; exact H|].
  intros k'. apply preserves_lift.
Qed.

Lemma one_silent {A} (m : M A) : silent m -> at_most_one_request m.
Proof. intros H w. left. apply H. Qed.

Lemma one_get_reference_data req : at_most_one_request (get_reference_data req).
Proof. intros w. right. now exists req. Qed.

Lemma one_bind_l {A B} (m : M A) (k : A -> M B) :
  at_most_one_request m -> (forall a, silent (k a)) ->
  at_most_one_request (bindM m k).
Proof.
  intros Hm Hk w. unfold bindM. specialize (Hm w).
  destruct (m w) as [[a|e] w']; cbn [snd] in *; [|exact Hm].
  rewrite (Hk a w'). exact Hm.
Qed.

Lemma one_bind_r {A B} (m : M A) (k : A -> M B) :
  silent m -> (forall a, at_most_one_request (k a)) ->
  at_most_one_request (bindM m k).
Proof.
  intros Hm Hk w. unfold bindM. specialize (Hm w).
  destruct (m w) as [[a|e] w']; cbn [snd] in *; [|now left].
  rewrite <- Hm. apply Hk.
Qed.

Lemma one_lru_cache {K V} key_eqb (cache : world -> list (K * V)) set_cache body k :
  (forall t w, sent (set_cache t w) = sent w) ->
  (forall k', at_most_one_request (body k')) ->
  at_most_one_request (lru_cache key_eqb cache set_cache body k).
Proof.
  intros Hset Hbody w. unfold lru_cache.
  destruct (cache_get key_eqb k (cache w)); [left; apply Hset|].
  specialize (Hbody k w).
  destruct (body k w) as [[v|e] w']; cbv zeta; cbn [snd] in *; [|exact Hbody].
  destruct (cache_get key_eqb k (cache w')); [exact Hbody|].
  destruct (maxsize <=? length (cache w'))%nat; cbn [snd]; now rewrite Hset.
Qed.

(** Steps through the binds of a body that sends nothing. *)
Ltac silent_body :=
  repeat first
    [ apply silent_ret
    | apply silent_raise
    | apply silent_lift
    | apply silent_convert_bbg_tenor_tag
    | apply silent_for_each; intros
    | apply silent_bindM; [|intros]
    | match goal with
      | |- silent (if ?b then _ else _) => destruct b
      | |- silent (match ?x with _ => _ end) => destruct x
      end ].

(** A body that does some work of its own, sends a request and works on
    the answer. *)
Ltac one_request_body :=
  repeat (apply one_bind_r; [solve [silent_body]|intros]);
  apply one_bind_l; [apply one_get_reference_data|intros; solve [silent_body]].

Section Requests.
Variable strftime_Ymd : datetime -> str.
Variable strptime_b_y : str -> result datetime.
Variable interp1d_cubic : list float -> list value -> float -> result float.

Lemma one_get_ois_curve date str_currency :
  at_most_one_request (get_ois_curve strftime_Ymd date str_currency).
Proof. unfold get_ois_curve. one_request_body. Qed.

(** No call of a method sends more than one request to the terminal, and
    a change of the terminal's data sends none. *)
Theorem one_request_per_call w w' :
  step strftime_Ymd strptime_b_y interp1d_cubic w w' ->
  sent w' = sent w \/ exists req, sent w' = req :: sent w.
Proof.
  intros [w0 d|w0 str_tag|w0 str_ticker|w0 args|w0 args|w0 args].
  - now left.
  - left. apply silent_convert_bbg_tenor_tag.
  - revert w0. change (at_most_one_request (get_option_fields strptime_b_y str_ticker)).
    unfold get_option_fields. one_request_body.
  - revert w0. change (at_most_one_request (get_general_fields args)).
    unfold get_general_fields. apply one_lru_cache; [reflexivity|].
    intros [[[[a b] c] d] e]. apply one_get_reference_data.
  - revert w0. change (at_most_one_request (get_general_field_single args)).
    unfold get_general_field_single. apply one_lru_cache; [reflexivity|].
    intros [a b]. unfold get_general_field_single__wrapped. one_request_body.
  - revert w0.
    change (at_most_one_request (get_ois strftime_Ymd interp1d_cubic args)).
    unfold get_ois. apply one_lru_cache; [reflexivity|].
    intros [[[date tgt_tenor] str_currency] num_side]. unfold get_ois__wrapped.
    apply one_bind_l; [apply one_get_ois_curve|].
    intros [tenors ret_curve]. silent_body.
Qed.

End Requests.

Lemma one_request_per_call_witness :
  sent (snd (get_ois strftime_Ymd_4 interp1d_min4
               (DateStr "20190502", true_div 1 2, "usd" : str, "mid" : str)
               (new_world (terminal_with_curve example_curve))))
  = sent (new_world (terminal_with_curve example_curve)) \/
  exists req,
    sent (snd (get_ois strftime_Ymd_4 interp1d_min4
                 (DateStr "20190502", true_div 1 2, "usd" : str, "mid" : str)
                 (new_world (terminal_with_curve example_curve))))
    = req :: sent (new_world (terminal_with_curve example_curve)).
Proof.
  apply (@one_request_per_call strftime_Ymd_4 strptime_b_y_en interp1d_min4).
  apply step_get_ois.
Defined.

(* ===================================================================== *)
(** * The request of get_ois *)
(* ===================================================================== *)

Lemma sent_bindM_silent {A B} (m : M A) (k : A -> M B) w :
  (forall a, silent (k a)) -> sent (snd (bindM m k w)) = sent (snd (m w)).
Proof.
  intros Hk. unfold bindM. destruct (m w) as [[a|e] w']; [apply Hk|reflexivity].
Qed.

Lemma sent_lru_cache_miss {K V} key_eqb (cache : world -> list (K * V))
      set_cache body k w :
  (forall t w0, sent (set_cache t w0) = sent w0) ->
  cache_get key_eqb k (cache w) = None ->
  sent (snd (lru_cache key_eqb cache set_cache body k w)) = sent (snd (body k w)).
Proof.
  intros Hset Hmiss. unfold lru_cache. rewrite Hmiss.
  destruct (body k w) as [[v|e] w']; cbv zeta; cbn [snd]; [|reflexivity].
  destruct (cache_get key_eqb k (cache w')); [reflexivity|].
  destruct (maxsize <=? length (cache w'))%nat; cbn [snd]; apply Hset.
Qed.

(** A call of [get_ois] for one of the four currencies that is not
    answered from the table sends one request, whatever the answer is: the
    field curve_tenor_rates of the currency's curve, with the date as the
    override curve_date, a date object being formatted first. *)
Theorem get_ois_request strftime_Ymd interp1d_cubic
    w date tgt_tenor str_currency num_side str_curve :
  cache_get (eqb_of ois_key_eq_dec)
    (date, tgt_tenor, str_currency, num_side) (ois_cache w) = None ->
  str_curve_of str_currency = Some str_curve ->
  sent (snd (get_ois strftime_Ymd interp1d_cubic
               (date, tgt_tenor, str_currency, num_side) w))
  = Request (One str_curve) (Field "curve_tenor_rates") None None
            [("curve_date" : str,
              match date with
              | DateStr s => s
              | DateObj d => strftime_Ymd d
              end)]
    :: sent w.
Proof.
  intros Hmiss Hcurve. unfold get_ois.
  rewrite sent_lru_cache_miss; [|reflexivity|exact Hmiss].
  unfold get_ois__wrapped.
  rewrite sent_bindM_silent; [|intros [tenors ret_curve]; silent_body].
  unfold get_ois_curve. rewrite Hcurve.
  change (lift (read_local "str_curve" (Some str_curve))) with (ret str_curve).
  unfold bindM at 1. unfold ret at 1. cbv iota beta.
  rewrite sent_bindM_silent; [reflexivity|intros d; silent_body].
Qed.

Lemma get_ois_request_witness :
  sent (snd (get_ois strftime_Ymd_4 interp1d_min4
               (DateObj (Datetime 2019 5 2), true_div 1 2, "EUR" : str, "mid" : str)
               (new_world offline)))
  = [Request (One "YCSW0133 Index") (Field "curve_tenor_rates") None None
             [("curve_date" : str, "20190502" : str)]].
Proof.
  apply (@get_ois_request strftime_Ymd_4 interp1d_min4 (new_world offline)
           (DateObj (Datetime 2019 5 2)) (true_div 1 2) "EUR" "mid" "YCSW0133 Index").
  - reflexivity.
  - reflexivity.
Defined.
